(** * PeerBook: the websocket session layer, the hub router and the
      verification handler

    A shallow embedding of [peer.go] (sessions: [newPeer], [readPump],
    [writePump], [serveWs]) and of [serveVerify] / [sendAuthEmail] from
    [main.go], with the routing rule of the hub, and the properties the
    design document states about them.

    Conventions.  A Go [string] is a [string]; [map[string]string] is a
    [gmap string string]; a pointer that may be [nil] is an [option]; a
    [(T, error)] result is a pair of options or a [reply]; a goroutine is
    the list of effects it performs, in order, together with the way it
    left its loop. *)

From Stdlib Require Import ZArith Lia Ascii String.
From stdpp Require Import base option list gmap strings.

Open Scope string_scope.
Open Scope list_scope.

(** ** Go-level helpers *)

(** A call that yields a value or an [error]. *)
Inductive reply (A : Type) : Type :=
| Ok (a : A)
| Fail (msg : string).
Arguments Ok {A} a.
Arguments Fail {A} msg.

Definition dquote : string := String "034"%char EmptyString.

(** A text between two double quotes, as the raw literals of the handlers
    put it. *)
Definition in_quotes (s : string) : string := dquote +:+ s +:+ dquote.

Definition backslash : ascii := "092"%char.

Definition lowerhex (n : nat) : ascii :=
  nth n (list_ascii_of_string "0123456789abcdef") "0"%char.

(** What [strconv.Quote] writes for one byte below 0x80: the double quote
    and the backslash get a backslash, the control bytes their escape, the
    printable ones stay.  A byte from 0x80 on stays too, which is what Go
    does for the printable runes of a valid UTF-8 text. *)
Definition escape_byte (c : ascii) : string :=
  let n := nat_of_ascii c in
  let esc (s : string) := String backslash s in
  if (n =? 34)%nat || (n =? 92)%nat then esc (String c EmptyString)
  else if (n =? 7)%nat then esc "a"
  else if (n =? 8)%nat then esc "b"
  else if (n =? 12)%nat then esc "f"
  else if (n =? 10)%nat then esc "n"
  else if (n =? 13)%nat then esc "r"
  else if (n =? 9)%nat then esc "t"
  else if (n =? 11)%nat then esc "v"
  else if (n <? 32)%nat || (n =? 127)%nat
       then esc (String "x" (String (lowerhex (n / 16))
                               (String (lowerhex (n mod 16)) EmptyString)))
  else String c EmptyString.

Fixpoint escape_bytes (s : string) : string :=
  match s with
  | EmptyString => EmptyString
  | String c s => escape_byte c +:+ escape_bytes s
  end.

(** [fmt.Sprintf("%q", s)], that is [strconv.Quote(s)]. *)
Definition quoted (s : string) : string := dquote +:+ escape_bytes s +:+ dquote.

(** [url.Values] and its [Get]: the first value of the key, or the empty
    string. *)
Definition Values : Type := gmap string (list string).

Definition Get (q : Values) (key : string) : string :=
  match q !! key with
  | Some (v :: _) => v
  | _ => EmptyString
  end.

(** A field name is exported when it starts with an upper-case letter;
    [encoding/json] only marshals the exported fields of a struct. *)
Definition IsExported (field : string) : bool :=
  match field with
  | EmptyString => false
  | String c _ => (65 <=? nat_of_ascii c)%nat && (nat_of_ascii c <=? 90)%nat
  end.

(** The JSON scalars that occur in the frames of this program. *)
Inductive JSON : Type :=
| JNum (n : Z)
| JStr (s : string).

(** A JSON object with scalar members. *)
Definition JObject : Type := gmap string JSON.

(** [json.Marshal] of a struct value given as its declared fields, in
    order: the unexported ones are skipped, the others become members
    named after the field (no field of this program carries a tag). *)
Definition Marshal_struct (fields : list (string * JSON)) : JObject :=
  list_to_map (filter (fun f => Is_true (IsExported f.1)) fields).

(** [json.Marshal] of a [map[string]string]. *)
Definition Marshal_map (m : gmap string string) : JObject := JStr <$> m.

(** ** net/url *)

Module url.

Definition between (lo hi : nat) (c : ascii) : bool :=
  (lo <=? nat_of_ascii c)%nat && (nat_of_ascii c <=? hi)%nat.

Fixpoint one_of (s : string) (c : ascii) : bool :=
  match s with
  | EmptyString => false
  | String a s => Ascii.eqb a c || one_of s c
  end.

(** [shouldEscape(c, encodePathSegment)]: letters, digits and the marks
    stay; of the reserved characters the slash, the semicolon, the comma
    and the question mark are escaped; so is everything else. *)
Definition shouldEscape (c : ascii) : bool :=
  if between 97 122 c || between 65 90 c || between 48 57 c then false
  else if one_of "-_.~" c then false
  else if one_of "$&+,/:;=?@" c then one_of "/;,?" c
  else true.

Definition upperhex (n : nat) : ascii :=
  nth n (list_ascii_of_string "0123456789ABCDEF") "0"%char.

(** [url.PathEscape]. *)
Fixpoint PathEscape (s : string) : string :=
  match s with
  | EmptyString => EmptyString
  | String c s =>
    if shouldEscape c
    then String "%" (String (upperhex (nat_of_ascii c / 16))
                       (String (upperhex (nat_of_ascii c mod 16)) (PathEscape s)))
    else String c (PathEscape s)
  end.

Definition ishex (c : ascii) : bool :=
  between 48 57 c || between 97 102 c || between 65 70 c.

Definition unhex (c : ascii) : nat :=
  if between 48 57 c then nat_of_ascii c - 48
  else if between 97 102 c then nat_of_ascii c - 97 + 10
  else if between 65 70 c then nat_of_ascii c - 65 + 10
  else 0.

(** The text of [url.EscapeError]. *)
Definition EscapeError (s : string) : string :=
  "invalid URL escape " +:+ quoted s.

(** [url.PathUnescape]: every percent sign must come with two hex digits;
    the first that does not is the error. *)
Fixpoint PathUnescape (s : string) : reply string :=
  match s with
  | EmptyString => Ok EmptyString
  | String c rest =>
    if Ascii.eqb c "%" then
      match rest with
      | String a (String b rest') =>
        if ishex a && ishex b then
          match PathUnescape rest' with
          | Ok t => Ok (String (ascii_of_nat (unhex a * 16 + unhex b)) t)
          | Fail err => Fail err
          end
        else Fail (EscapeError (String c (String a (String b EmptyString))))
      | _ => Fail (EscapeError s)
      end
    else
      match PathUnescape rest with
      | Ok t => Ok (String c t)
      | Fail err => Fail err
      end
  end.

End url.

(** ** The notifier

    The package-level [sendAuthEmail(email)] of [main.go] is the one place
    that sends a verification mail.  The world keeps the log of its
    invocations with what became of each. *)

Inductive Delivery : Type :=
| Throttled
| NoToken (err : string)
| SmtpFailed (link : string)
| Sent (link : string).

Record Notification : Type := { rcpt : string; delivery : Delivery }.

(** ** peer.go *)

Module Session.

(** Durations are in nanoseconds, as [time.Duration]. *)
Definition Second : Z := 1000000000.
Definition writeWait : Z := 10 * Second.
Definition pongWait : Z := 60 * Second.
Definition pingPeriod : Z := (pongWait * 9) / 10.
Definition maxMessageSize : Z := 512.

(** PeerDoc is the info stored at redis. *)
Record PeerDoc : Type := {
  user : string;
  fingerprint : string;
  name : string;
  kind : string
}.

Record StatusMessage : Type := {
  status_code : Z;
  description : string
}.

(** The error values of the package. *)
Inductive error : Type :=
| PeerNotFound (fp : string)
| PeerChanged
| errorString (msg : string).

Definition Error (e : error) : string :=
  match e with
  | PeerNotFound fp => "Peer not found: " +:+ fp
  | PeerChanged => "Peer exists with different properties"
  | errorString msg => msg
  end.

(** What travels on a [send] channel ([chan interface{}]): a status push
    or a routed request. *)
Inductive Msg : Type :=
| MStatus (s : StatusMessage)
| MRequest (m : gmap string string).

(** A buffered channel. *)
Record Chan : Type := {
  buf : list Msg;
  cap : nat;
  closed : bool
}.

Definition make_chan (n : nat) : Chan :=
  {| buf := []; cap := n; closed := false |}.

Inductive SendResult : Type :=
| Enqueued (c : Chan)
| WouldBlock
| SendOnClosed.

(** [c <- m]. *)
Definition chan_send (c : Chan) (m : Msg) : SendResult :=
  if closed c then SendOnClosed
  else if decide (length (buf c) < cap c)%nat
       then Enqueued {| buf := buf c ++ [m]; cap := cap c; closed := closed c |}
       else WouldBlock.

(** Peer is a middleman between the websocket connection and the hub.
    [ws] tells whether the connection pointer was set by a successful
    upgrade. *)
Record Peer : Type := {
  ws : bool;
  send : Chan;
  authenticated : bool;
  pd : option PeerDoc
}.

(** The redis connection of the hub, as the replies it gives: [EXISTS key],
    [HGETALL key], and the client library's [ScanStruct] into a [PeerDoc]. *)
Record Redis : Type := {
  Do_EXISTS : string -> reply bool;
  Do_HGETALL : string -> reply (list (string * string));
  ScanStruct : list (string * string) -> reply PeerDoc
}.

(** [redis.Values]: the values of the reply, nil for a failed command. *)
Definition redis_Values (r : reply (list (string * string)))
    : list (string * string) :=
  match r with
  | Ok v => v
  | Fail _ => []
  end.

(** The zero value of [PeerDoc], which [var pd PeerDoc] starts from. *)
Definition PeerDoc_zero : PeerDoc :=
  {| user := EmptyString; fingerprint := EmptyString; name := EmptyString;
     kind := EmptyString |}.

(** The fields of [PeerDoc] as declared, each with its assignment. *)
Definition PeerDoc_fields : list (string * (string -> PeerDoc -> PeerDoc)) :=
  [("user", fun v d => {| user := v; fingerprint := fingerprint d;
                          name := name d; kind := kind d |});
   ("fingerprint", fun v d => {| user := user d; fingerprint := v;
                                 name := name d; kind := kind d |});
   ("name", fun v d => {| user := user d; fingerprint := fingerprint d;
                          name := v; kind := kind d |});
   ("kind", fun v d => {| user := user d; fingerprint := fingerprint d;
                          name := name d; kind := v |})].

(** The field the client library has for a key of the hash.  As
    [encoding/json] does, it knows the exported fields of a struct only,
    each under its name (no field of [PeerDoc] carries a tag). *)
Definition fieldSpec {A : Type} (fields : list (string * A)) (key : string)
    : option (string * A) :=
  find (fun f => IsExported f.1 && bool_decide (f.1 = key)) fields.

(** [redis.ScanStruct(values, &pd)] of redigo on the pairs of a hash: a
    key that names a field sets it, every other key is passed over.  The
    pairs of a [HGETALL] reply give it no reason for an error. *)
Definition redis_ScanStruct (values : list (string * string)) : reply PeerDoc :=
  Ok (foldl (fun d kv => match fieldSpec PeerDoc_fields kv.1 with
                         | Some f => f.2 kv.2 d
                         | None => d
                         end) PeerDoc_zero values).

(** The connection is used through the client library of the program. *)
Definition redigo (r : Redis) : Prop :=
  forall values, ScanStruct r values = redis_ScanStruct values.

Definition newPeer (r : Redis) (q : Values) : option Peer * option error :=
  let fp := Get q "fingerprint" in
  if decide (fp = EmptyString) then
    (None, Some (errorString "Missing `fingerprint` query parameters"))
  else
    let key := "peer:" +:+ fp in
    match Do_EXISTS r key with
    | Fail err => (None, Some (errorString err))
    | Ok exists_ =>
      let peer := {| ws := false; send := make_chan 8;
                     authenticated := false; pd := None |} in
      if negb exists_ then (Some peer, Some (PeerNotFound EmptyString))
      else
        (* the error of HGETALL is overwritten by the one of ScanStruct *)
        let values := redis_Values (Do_HGETALL r key) in
        match ScanStruct r values with
        | Fail err =>
          (None, Some (errorString
             ("Failed to scan peer " +:+ quoted key +:+ ": " +:+ err)))
        | Ok d =>
          let peer := {| ws := ws peer; send := send peer;
                         authenticated := false; pd := Some d |} in
          if bool_decide (name d ≠ Get q "name") ||
             bool_decide (user d ≠ Get q "user") ||
             bool_decide (kind d ≠ Get q "kind")
          then (Some peer, Some PeerChanged)
          else (Some {| ws := ws peer; send := send peer;
                        authenticated := true; pd := pd peer |}, None)
        end
    end.

(** *** The socket as the read task sees it

    What the remote end sends, each item with its arrival time.  Once the
    list is exhausted the remote end stays silent. *)

Inductive Payload : Type :=
| Malformed                               (* not a JSON object of strings *)
| Null                                    (* the JSON literal null *)
| Object (m : gmap string string).

Inductive Incoming : Type :=
| Pong
| Text (size : Z) (payload : Payload)
| CloseFrame (code : Z).

Inductive ReadError : Type :=
| ErrReadLimit
| ErrDecode
| ErrTimeout
| ErrClose (code : Z).

Definition CloseGoingAway : Z := 1001.
Definition CloseAbnormalClosure : Z := 1006.

Definition IsUnexpectedCloseError (e : ReadError) (expected : list Z) : bool :=
  match e with
  | ErrClose code => negb (bool_decide (code ∈ expected))
  | _ => false
  end.

(** Decoding a JSON value into the variable [message]: [null] sets the
    map to nil; an object is stored into the map the variable already
    holds, keeping the entries the object does not mention, and a nil
    variable gets a new map. *)
Definition decode_into (message : option (gmap string string))
    (payload : gmap string string) : option (gmap string string) :=
  match message with
  | None => Some payload
  | Some old => Some (payload ∪ old)
  end.

Inductive ReadResult : Type :=
| Decoded (message : option (gmap string string))
| ReadFailed (e : ReadError).

(** [p.ws.ReadJSON(&message)] under the read limit, the current read
    deadline and the pong handler, which moves the deadline to
    [pongWait] after the pong.  Returns the new deadline and what is left
    of the input too. *)
Fixpoint ReadJSON (deadline : Z) (message : option (gmap string string))
    (input : list (Z * Incoming)) : ReadResult * Z * list (Z * Incoming) :=
  match input with
  | [] => (ReadFailed ErrTimeout, deadline, [])
  | (t, x) :: rest =>
    if (deadline <? t)%Z then (ReadFailed ErrTimeout, deadline, rest)
    else
      match x with
      | Pong => ReadJSON (t + pongWait) message rest
      | CloseFrame code => (ReadFailed (ErrClose code), deadline, rest)
      | Text size payload =>
        if (maxMessageSize <? size)%Z then (ReadFailed ErrReadLimit, deadline, rest)
        else
          match payload with
          | Malformed => (ReadFailed ErrDecode, deadline, rest)
          | Null => (Decoded None, deadline, rest)
          | Object m => (Decoded (decode_into message m), deadline, rest)
          end
      end
  end.

(** *** Effects of the two tasks

    A send on a channel of the hub is an effect of the sender; the hub
    loop is taken to receive it.  [HubRequest] holds the contents the map
    has when it is sent. *)

Inductive Event : Type :=
| HubRequest (m : gmap string string)     (* p.hub.requests <- message *)
| HubUnregister                           (* p.hub.unregister <- p *)
| WsClose                                 (* p.ws.Close() *)
| LogError (e : ReadError)
| SetWriteDeadline
| WsText (doc : JObject)                  (* a JSON frame written *)
| WsWriteFailed                           (* a write that returned an error *)
| WsCloseMessage
| WsPing
| LogWarn
| TickerStop.

Inductive Panic : Type :=
| NilPointer                              (* p.pd or p.ws is nil *)
| NilMap.                                 (* assignment to entry in nil map *)

Inductive Exit : Type :=
| Broke (e : ReadError)                   (* left the loop on a read error *)
| Returned                                (* left the loop by return *)
| Panicked (why : Panic)
| Blocked                                 (* still waiting in the loop *)
| OutOfFuel.

(** The [for] loop of [readPump]. *)
Fixpoint readLoop (fuel : nat) (p : Peer) (deadline : Z)
    (message : option (gmap string string))
    (input : list (Z * Incoming)) : list Event * Exit :=
  match fuel with
  | O => ([], OutOfFuel)
  | S fuel =>
    match ReadJSON deadline message input with
    | (ReadFailed e, _, _) =>
      (if IsUnexpectedCloseError e [CloseGoingAway; CloseAbnormalClosure]
       then [LogError e] else [], Broke e)
    | (Decoded message, deadline, rest) =>
      match pd p with
      | None => ([], Panicked NilPointer)
      | Some d =>
        match message with
        | None => ([], Panicked NilMap)
        | Some m =>
          let m := <["source_fp" := fingerprint d]> m in
          let m := <["source_name" := name d]> m in
          let '(tr, ex) := readLoop fuel p deadline (Some m) rest in
          (HubRequest m :: tr, ex)
        end
      end
    end
  end.

(** readPump pumps messages from the websocket connection to the hub.
    The deferred function runs however the loop is left; with a nil
    connection the first call on it panics, and so does the deferred
    [Close]. *)
Definition readPump (p : Peer) (now : Z) (input : list (Z * Incoming))
    : list Event * Exit :=
  if ws p then
    let '(tr, ex) := readLoop (S (length input)) p (now + pongWait) None input in
    (tr ++ [HubUnregister; WsClose], ex)
  else ([HubUnregister], Panicked NilPointer).

(** *** The write task *)

Definition StatusMessage_fields (s : StatusMessage) : list (string * JSON) :=
  [("status_code", JNum (status_code s)); ("description", JStr (description s))].

(** The document [p.ws.WriteJSON(message)] puts on the wire. *)
Definition WriteJSON (message : Msg) : JObject :=
  match message with
  | MStatus s => Marshal_struct (StatusMessage_fields s)
  | MRequest m => Marshal_map m
  end.

(** What the [select] of [writePump] picks, with the fate of the write
    that follows: a message from [p.send], the closed [p.send], or a
    tick. *)
Inductive Select : Type :=
| Recv (message : Msg) (written : bool)
| RecvClosed
| Tick (written : bool).

(** The [for] / [select] loop of [writePump]; an exhausted list leaves
    the task waiting in [select]. *)
Fixpoint writeLoop (sel : list Select) : list Event * Exit :=
  match sel with
  | [] => ([], Blocked)
  | Recv message written :: rest =>
    let '(tr, ex) := writeLoop rest in
    if written
    then (SetWriteDeadline :: WsText (WriteJSON message) :: tr, ex)
    else (SetWriteDeadline :: WsWriteFailed :: LogWarn :: tr, ex)
  | RecvClosed :: _ => ([SetWriteDeadline; WsCloseMessage], Returned)
  | Tick written :: rest =>
    if written
    then let '(tr, ex) := writeLoop rest in (SetWriteDeadline :: WsPing :: tr, ex)
    else ([SetWriteDeadline; WsWriteFailed], Returned)
  end.

(** Has the deferred function of a task run? *)
Definition finished (ex : Exit) : bool :=
  match ex with
  | Broke _ | Returned | Panicked _ => true
  | Blocked | OutOfFuel => false
  end.

(** writePump pumps messages from the hub to the websocket connection. *)
Definition writePump (p : Peer) (sel : list Select) : list Event * Exit :=
  if ws p then
    let '(tr, ex) := writeLoop sel in
    (if finished ex then tr ++ [TickerStop; WsClose] else tr, ex)
  else
    match sel with
    | [] => ([], Blocked)
    | _ :: _ => ([TickerStop], Panicked NilPointer)
    end.

(** *** The handshake *)

Definition sendStatus (p : Peer) (code : Z) (err : error) : option Peer :=
  let msg := {| status_code := code; description := Error err |} in
  match chan_send (send p) (MStatus msg) with
  | Enqueued c => Some {| ws := ws p; send := c;
                          authenticated := authenticated p; pd := pd p |}
  | _ => None
  end.

(** [Peer.sendAuthEmail]: nothing is sent and the error is nil. *)
Definition sendAuthEmail (p : Peer) (outbox : list Notification)
    : list Notification * option error :=
  (outbox, None).

Record Request : Type := {
  query : Values;
  upgradable : bool                       (* will upgrader.Upgrade succeed *)
}.

Definition Upgrade (p : Peer) (r : Request) : Peer :=
  {| ws := upgradable r; send := send p;
     authenticated := authenticated p; pd := pd p |}.

Record Hub : Type := { redis : Redis }.

Inductive Task : Type := WritePumpTask | ReadPumpTask.

Inductive Action : Type :=
| HttpError (body : string) (code : Z)
| Warn (msg : string)
| PushStatus (code : Z) (description : string)
| CallSendAuthEmail
| LogAuthEmailFailure
| CallUpgrade
| LogUpgradeFailure
| Go (t : Task).

Record Served : Type := {
  actions : list Action;
  session : option Peer;                  (* the peer the tasks run on *)
  signalled : option error;
  outbox : list Notification
}.

Definition StatusBadRequest : Z := 400.

(** The tail of [serveWs]: upgrade, then start both tasks. *)
Definition upgrade_and_go (pre : list Action) (peer : Peer) (err : option error)
    (r : Request) (ob : list Notification) : Served :=
  let peer := Upgrade peer r in
  {| actions := pre ++ [CallUpgrade]
                    ++ (if upgradable r then [] else [LogUpgradeFailure])
                    ++ [Go WritePumpTask; Go ReadPumpTask];
     session := Some peer; signalled := err; outbox := ob |}.

(** serveWs handles websocket requests from the peer. *)
Definition serveWs (hub : Hub) (r : Request) (ob : list Notification) : Served :=
  match newPeer (redis hub) (query r) with
  | (None, err) =>
    let text := from_option Error EmptyString err in
    {| actions := [Warn ("Failed to create a new peer: " +:+ text);
                   HttpError text StatusBadRequest];
       session := None; signalled := err; outbox := ob |}
  | (Some peer, Some err) =>
    match err with
    | PeerNotFound _ | PeerChanged =>
      match sendStatus peer 401 err with
      | None =>
        (* the handler waits on the queue; not so with the queue newPeer made *)
        {| actions := []; session := None; signalled := Some err; outbox := ob |}
      | Some peer =>
        let '(ob, err') := sendAuthEmail peer ob in
        upgrade_and_go
          ([PushStatus 401 (Error err); CallSendAuthEmail]
             ++ (if err' is Some _ then [LogAuthEmailFailure] else []))
          peer (Some err) r ob
      end
    | errorString _ =>
      {| actions := [HttpError (Error err) StatusBadRequest];
         session := None; signalled := Some err; outbox := ob |}
    end
  | (Some peer, None) => upgrade_and_go [] peer None r ob
  end.

End Session.

(** ** The hub router *)

Module Router.
Import Session.

Inductive RouteError : Type :=
| TargetNotFound (fp : string)
| PeerIsForeign (owner : option string)
| UnauthorizedPeer.

Inductive Routed : Type :=
| Failed (e : RouteError)                 (* pushed back to the source as a status *)
| Delivered
| Dropped.                                (* the target's queue was full *)

(** The persisted owning user of a session. *)
Definition owner (p : Peer) : option string := user <$> pd p.

Definition target_of (message : gmap string string) : string :=
  default EmptyString (message !! "target").

Definition with_send (p : Peer) (c : Chan) : Peer :=
  {| ws := ws p; send := c; authenticated := authenticated p; pd := pd p |}.

(** Modelled from the spec: the routing step of the hub loop, which is
    not among the sources.  [peers] is the registry, fingerprint to
    session; [source] is the session the request came from; the request
    already carries the injected source fields.  The checks are made in
    the order the design lists them: target not registered, target of
    another user, source not authenticated; otherwise the request is
    appended to the target's queue, or dropped when that queue is full. *)
Definition Route (peers : gmap string Peer) (source : Peer)
    (message : gmap string string) : gmap string Peer * Routed :=
  let t := target_of message in
  match peers !! t with
  | None => (peers, Failed (TargetNotFound t))
  | Some target =>
    if decide (owner target ≠ owner source)
    then (peers, Failed (PeerIsForeign (owner target)))
    else if negb (authenticated source)
    then (peers, Failed UnauthorizedPeer)
    else
      match chan_send (send target) (MRequest message) with
      | Enqueued c => (<[t := with_send target c]> peers, Delivered)
      | _ => (peers, Dropped)
      end
  end.

End Router.

(** ** main.go: the verification handler *)

Module Main.

(** The persisted identity of a peer, as [serveVerify] uses it. *)
Record Peer : Type := {
  FP : string;
  Name : string;
  User : string;
  Kind : string;
  Verified : bool
}.

Inductive DbOp : Type :=
| OpPeerExists | OpAddPeer | OpGetPeer | OpGetUsersPeers.

#[global] Instance DbOp_eq_dec : EqDecision DbOp.
Proof. solve_decision. Defined.

(** The store behind [db]: the identities by fingerprint, the operations
    that currently fail, the addresses the mail throttle holds back and
    the reply of [CreateToken]. *)
Record DBType : Type := {
  peers : gmap string Peer;
  failing : list DbOp;
  throttled : gset string;
  CreateToken : string -> reply string
}.

Definition with_peers (d : DBType) (ps : gmap string Peer) : DBType :=
  {| peers := ps; failing := failing d; throttled := throttled d;
     CreateToken := CreateToken d |}.

Definition fails (d : DBType) (op : DbOp) : bool := bool_decide (op ∈ failing d).

(** Modelled from the spec: [NewPeer], an identity that is not verified
    yet. *)
Definition NewPeer (fp name user kind : string) : Peer :=
  {| FP := fp; Name := name; User := user; Kind := kind; Verified := false |}.

(** Modelled from the spec: [db.PeerExists], the store's
    ExistsByFingerprint. *)
Definition PeerExists (d : DBType) (fp : string) : reply bool :=
  if fails d OpPeerExists then Fail "store failure"
  else Ok (bool_decide (is_Some (peers d !! fp))).

(** Modelled from the spec: [db.AddPeer], the store's PutNew, which
    refuses a fingerprint that is already there. *)
Definition AddPeer (d : DBType) (p : Peer) : reply DBType :=
  if fails d OpAddPeer then Fail "store failure"
  else if bool_decide (is_Some (peers d !! FP p)) then Fail "conflict"
  else Ok (with_peers d (<[FP p := p]> (peers d))).

(** Modelled from the spec: [GetPeer], the store's GetByFingerprint. *)
Definition GetPeer (d : DBType) (fp : string) : reply Peer :=
  if fails d OpGetPeer then Fail "store failure"
  else match peers d !! fp with
       | Some p => Ok p
       | None => Fail "not found"
       end.

(** Modelled from the spec: [peer.setName], the store's SetName, which
    also renames the value in hand. *)
Definition setName (d : DBType) (p : Peer) (name : string) : DBType * Peer :=
  let rename (q : Peer) :=
    {| FP := FP q; Name := name; User := User q; Kind := Kind q;
       Verified := Verified q |} in
  (with_peers d (alter rename (FP p) (peers d)), rename p).

(** Modelled from the spec: [GetUsersPeers], the store's ListByUser. *)
Definition GetUsersPeers (d : DBType) (user : string) : reply (list Peer) :=
  if fails d OpGetUsersPeers then Fail "store failure"
  else Ok (filter (fun p => User p = user) (map_to_list (peers d)).*2).

(** Modelled from the spec: [db.canSendEmail], the mail throttle. *)
Definition canSendEmail (d : DBType) (email : string) : bool :=
  bool_decide (email ∉ throttled d).

Record World : Type := {
  db : DBType;
  PB_HOME_URL : string;
  smtp_up : bool;                         (* will DialAndSend succeed *)
  outbox : list Notification
}.

Definition with_db (w : World) (d : DBType) : World :=
  {| db := d; PB_HOME_URL := PB_HOME_URL w; smtp_up := smtp_up w;
     outbox := outbox w |}.

Definition notify (w : World) (n : Notification) : World :=
  {| db := db w; PB_HOME_URL := PB_HOME_URL w; smtp_up := smtp_up w;
     outbox := outbox w ++ [n] |}.

Definition DefaultHomeUrl : string := "https://pb.terminal7.dev".

(** The link is home/prefix/token, the token escaped as a path segment. *)
Definition createTempURL (w : World) (email prefix : string) : reply string :=
  match CreateToken (db w) email with
  | Fail err => Fail ("Failed to create token: " +:+ err)
  | Ok token =>
    let homeUrl := if decide (PB_HOME_URL w = EmptyString)
                   then DefaultHomeUrl else PB_HOME_URL w in
    Ok (homeUrl +:+ "/" +:+ prefix +:+ "/" +:+ url.PathEscape token)
  end.

(** sendAuthEmail creates a short lived token and emails a message with a
    link; every invocation is entered in the outbox with its outcome. *)
Definition sendAuthEmail (w : World) (email : string) : World :=
  if negb (canSendEmail (db w) email)
  then notify w {| rcpt := email; delivery := Throttled |}
  else
    match createTempURL w email "pb" with
    | Fail err => notify w {| rcpt := email; delivery := NoToken err |}
    | Ok clickL =>
      notify w {| rcpt := email;
                  delivery := if smtp_up w then Sent clickL else SmtpFailed clickL |}
    end.

Record Request : Type := {
  Method : string;
  Body : option (gmap string string)      (* None: the body is not such JSON *)
}.

Inductive ResponseBody : Type :=
| Plain (msg : string)
| JsonM (msg : string)                    (* {"m": msg} *)
| JsonVerified (v : bool)                 (* {"verified": v} *)
| JsonPeers (ps : list Peer)              (* {"peers": ps} *)
| NoBody.

Record Response : Type := { status : Z; body : ResponseBody }.

Definition StatusOK : Z := 200.
Definition StatusBadRequest : Z := 400.
Definition StatusConflict : Z := 409.
Definition StatusInternalServerError : Z := 500.

Definition http_Error (msg : string) (code : Z) : Response :=
  {| status := code; body := Plain msg |}.

(** [req[key]] on a map that may be nil. *)
Definition field (req : option (gmap string string)) (key : string) : string :=
  default EmptyString (req ≫= (.!! key)).

(** The end of [serveVerify]: the list of the user's peers for a verified
    peer, the verified flag otherwise. *)
Definition reply_for (w : World) (peer : Peer) : World * Response :=
  if Verified peer then
    match GetUsersPeers (db w) (User peer) with
    | Fail err => (w, http_Error ("Failed to get user peers: " +:+ err)
                                 StatusInternalServerError)
    | Ok ps => (w, {| status := StatusOK; body := JsonPeers ps |})
    end
  else (w, {| status := StatusOK; body := JsonVerified (Verified peer) |}).

(** The end of the branch for a known fingerprint: rename when the name
    changed, notify when not verified. *)
Definition rename_and_notify (w : World) (peer : Peer) (name email : string)
    : World * Response :=
  let '(w, peer) :=
    if decide (Name peer ≠ name)
    then let '(d, peer) := setName (db w) peer name in (with_db w d, peer)
    else (w, peer) in
  let w := if negb (Verified peer) then sendAuthEmail w email else w in
  reply_for w peer.

Definition serveVerify (w : World) (r : Request) : World * Response :=
  let req := Body r in
  let fp := field req "fp" in
  let email := field req "email" in
  if decide (req = None) then (w, http_Error "Bad JSON" StatusBadRequest)
  else if decide (fp = EmptyString)
  then (w, http_Error "Missing fingerprint" StatusBadRequest)
  else if decide (email = EmptyString)
  then (w, http_Error "Missing email" StatusBadRequest)
  else if decide (Method r = "POST") then
    match PeerExists (db w) fp with
    | Fail _ => (w, http_Error "DB read failure" StatusInternalServerError)
    | Ok false =>
      let peer := NewPeer fp (field req "name") email (field req "kind") in
      match AddPeer (db w) peer with
      | Fail err => (w, http_Error ("Failed to add peer: " +:+ err)
                                   StatusInternalServerError)
      | Ok d => reply_for (sendAuthEmail (with_db w d) email) peer
      end
    | Ok true =>
      match GetPeer (db w) fp with
      | Fail err =>
        (w, {| status := StatusInternalServerError;
               body := JsonM ("Failed to get peer: " +:+ err) |})
      | Ok peer =>
        if decide (User peer = EmptyString) then
          let peer := NewPeer fp (field req "name") email (field req "kind") in
          match AddPeer (db w) peer with
          | Fail err => (w, http_Error ("Failed to add peer: " +:+ err)
                                       StatusInternalServerError)
          | Ok d => rename_and_notify (with_db w d) peer (field req "name") email
          end
        else if decide (User peer ≠ email) then
          (w, http_Error ("Fingerprint is associated to another email: "
                            +:+ User peer) StatusConflict)
        else rename_and_notify w peer (field req "name") email
      end
    end
  else (w, {| status := StatusOK; body := NoBody |}).

End Main.

(** ** main.go: the pages behind a token *)

Module Pages.

(** *** [strings] *)

(** [strings.IndexRune(s, c)] for a one-byte rune: the index of the first
    [c], or -1. *)
Fixpoint IndexRune (s : string) (c : ascii) : Z :=
  match s with
  | EmptyString => -1
  | String a s =>
    if Ascii.eqb a c then 0
    else let i := IndexRune s c in if (i <? 0)%Z then -1 else (i + 1)%Z
  end.

(** [s[n:]] for [n] up to the length of [s]. *)
Fixpoint from (n : nat) (s : string) : string :=
  match n, s with
  | O, _ => s
  | S n, String _ s => from n s
  | S _, EmptyString => EmptyString
  end.

(** *** What the handlers work with *)

Inductive Outcome (A : Type) : Type :=
| Value (a : A)
| Err (msg : string)
| Panics.                                 (* slice bounds out of range *)
Arguments Value {A} a.
Arguments Err {A} msg.
Arguments Panics {A}.

(** The calls on the store whose code is not at hand. *)
Inductive DbCall : Type :=
| VerifyPeer (fp : string) (verified : bool)
| SetQRVerified (user : string)
| DEL (key : string).

(** What the handlers take from their surroundings: the replies of the
    store and of the libraries. *)
Record Env : Type := {
  GetToken : string -> reply string;      (* db.GetToken *)
  IsQRVerified : string -> bool;          (* db.IsQRVerified *)
  VerifyPeer_error : string -> bool -> option string;
  SetQRVerified_error : string -> option string;
  Key : Main.Peer -> string;              (* p.Key() *)
  GET_error : option string;              (* GET fails, and not with ErrNil *)
  SET_error : bool;
  Generate : string -> reply string;      (* the secret totp.Generate makes *)
  Validate : string -> string -> bool;    (* totp.Validate(passcode, secret) *)
  NewKeyFromURL : string -> option string;
  Image : string -> reply string;         (* the PNG of the key, in base64 *)
  PB_STATIC_ROOT : string;
  ParseFiles : string -> option string;   (* the error of template.ParseFiles *)
  Execute_error : string -> option string
}.

(** What they may change: the world of [Main], the strings kept at
    redis, and the calls made on the store. *)
Record Site : Type := {
  world : Main.World;
  kv : gmap string string;
  calls : list DbCall
}.

Definition with_world (s : Site) (w : Main.World) : Site :=
  {| world := w; kv := kv s; calls := calls s |}.

Definition with_kv (s : Site) (m : gmap string string) : Site :=
  {| world := world s; kv := m; calls := calls s |}.

Definition call (s : Site) (c : DbCall) : Site :=
  {| world := world s; kv := kv s; calls := calls s ++ [c] |}.

(** [conn.Do("DEL", key)] on the connection of the pool. *)
Definition del (s : Site) (key : string) : Site :=
  {| world := world s; kv := delete key (kv s); calls := calls s ++ [DEL key] |}.

Record Request : Type := {
  Method : string;
  Path : string;                          (* r.URL.Path *)
  Query : Values;                         (* r.URL.Query() *)
  Form : reply Values                     (* r.Form after r.ParseForm() *)
}.

Record PageData : Type := {
  Message : string;
  User : string;
  Peers : list Main.Peer;
  Image_ : string;
  Token : string
}.

(** The calls of a handler on its response writer. *)
Inductive Call : Type :=
| http_Error (msg : string) (code : Z)
| http_Redirect (url : string) (code : Z)
| Write (content : string)
| Execute (tmpl : string) (data : PageData)
| Panic.

Definition StatusSeeOther : Z := 303.
Definition StatusBadRequest : Z := 400.
Definition StatusUnauthorized : Z := 401.
Definition StatusMethodNotAllowed : Z := 405.
Definition StatusInternalServerError : Z := 500.
Definition StatusNotImplemented : Z := 501.

Definition HTMLPostrmrf : string :=
  "<html lang=en> <head><meta charset=utf-8>
<title>Thank You</title>
</head>
<body><h2>All your peers and your email were deleted</h2>".

(** getUserFromRequest works assuming a valid token is the second url
    part. *)
Definition getUserFromRequest (e : Env) (r : Request) : Outcome string :=
  match Path r with
  | EmptyString => Panics
  | String _ tail =>
    let i := IndexRune tail "/" in
    let t := from (Z.to_nat (i + 2)) (Path r) in
    match url.PathUnescape t with
    | Fail err => Err ("Failed to unescape token: err: " +:+ err)
    | Ok token =>
      match GetToken e token with
      | Fail err => Err ("Failed to get token: err: " +:+ err)
      | Ok user =>
        if decide (user = EmptyString)
        then Err "Failed to get token: err: %!w(<nil>)"
        else Value user
      end
    end
  end.

Definition getUserSecret (e : Env) (s : Site) (user : string)
    : Site * reply string :=
  let key := "secret:" +:+ user in
  match GET_error e with
  | Some err => (s, Fail err)
  | None =>
    match kv s !! key with
    | Some secret => (s, Ok secret)
    | None =>
      match Generate e user with
      | Fail _ => (s, Fail "Failed to generate a TOTP key")
      | Ok secret =>
        if SET_error e then (s, Fail "Failed to save the user's secret")
        else (with_kv s (<[key := secret]> (kv s)), Ok secret)
      end
    end
  end.

Definition otpauth (user secret : string) : string :=
  "otpauth://totp/PeerBook:" +:+ user +:+ "?algorithm=SHA1&digits=6&secret="
    +:+ secret +:+ "&issuer=PeerBook&period=30".

Definition getUserKey (e : Env) (s : Site) (user : string)
    : Site * reply string :=
  match getUserSecret e s user with
  | (s, Fail err) => (s, Fail err)
  | (s, Ok secret) =>
    match NewKeyFromURL e (otpauth user secret) with
    | Some err => (s, Fail err)
    | None => (s, Ok (otpauth user secret))
    end
  end.

(** The end of the handlers that show a page: parse the templates,
    execute them on the data. *)
Definition render (e : Env) (page : string) (execute_failure : string)
    (data : PageData) : list Call :=
  let file := PB_STATIC_ROOT e +:+ "/" +:+ page in
  match ParseFiles e file with
  | Some err =>
    [http_Error ("Failed to parse the template: " +:+ err)
                StatusInternalServerError]
  | None =>
    Execute file data
    :: match Execute_error e file with
       | Some err => [http_Error (execute_failure +:+ err) StatusInternalServerError]
       | None => []
       end
  end.

Definition serveHitMe (e : Env) (s : Site) (r : Request) : Site * list Call :=
  if decide (Method r = "POST") then
    match Form r with
    | Fail err =>
      (s, [http_Error ("{" +:+ in_quotes "msg" +:+ ": "
                         +:+ in_quotes ("Got an error parsing form: " +:+ err) +:+ "}")
                      StatusBadRequest])
    | Ok form =>
      let email := Get form "email" in
      if decide (email = EmptyString) then
        (s, [http_Error ("{" +:+ in_quotes "msg" +:+ ": "
                           +:+ in_quotes "Got a hitme request with no email" +:+ "}")
                        StatusBadRequest])
      else
        let s := with_world s (Main.sendAuthEmail (world s) email) in
        (s, render e "index.tmpl" "Failed to execute the main template: "
              {| Message := "You've been hit with the email stick";
                 User := email; Peers := []; Image_ := EmptyString;
                 Token := EmptyString |})
    end
  else (s, []).

Definition set_verified (p : Main.Peer) (v : bool) : Main.Peer :=
  {| Main.FP := Main.FP p; Main.Name := Main.Name p; Main.User := Main.User p;
     Main.Kind := Main.Kind p; Main.Verified := v |}.

(** The loop of [serveAuthPage] over the peers of the user: a peer is
    verified when its fingerprint is among the keys of the form, and
    unverified when it is not.  Returns the peers as they are shown, and
    the error that stopped the loop. *)
Fixpoint verify_loop (e : Env) (s : Site) (form : Values)
    (peers : list Main.Peer) : Site * list Main.Peer * option string :=
  match peers with
  | [] => (s, [], None)
  | p :: rest =>
    let toBeV := bool_decide (is_Some (form !! Main.FP p)) in
    let '(s, p, err) :=
      if Main.Verified p && negb toBeV
      then (call s (VerifyPeer (Main.FP p) false), set_verified p false,
            VerifyPeer_error e (Main.FP p) false)
      else (s, p, None) in
    let '(s, p, err) :=
      if negb (Main.Verified p) && toBeV
      then (call s (VerifyPeer (Main.FP p) true), set_verified p true,
            VerifyPeer_error e (Main.FP p) true)
      else (s, p, err) in
    match err with
    | Some msg => (s, p :: rest, Some msg)
    | None =>
      let '(s, rest, err) := verify_loop e s form rest in (s, p :: rest, err)
    end
  end.

Definition serveAuthPage (e : Env) (s : Site) (r : Request) : Site * list Call :=
  match getUserFromRequest e r with
  | Panics => (s, [Panic])
  | Err err =>
    (s, [http_Error ("Failed to parse url: " +:+ err) StatusInternalServerError])
  | Value user =>
    match Main.GetUsersPeers (Main.db (world s)) user with
    | Fail err =>
      (s, [http_Error ("Failed to get user peers: " +:+ err)
                      StatusInternalServerError])
    | Ok peers =>
      let page message peers :=
        render e "pb.tmpl" "Failed to execute the main template: "
          {| Message := message; User := user; Peers := peers;
             Image_ := EmptyString; Token := EmptyString |} in
      if negb (IsQRVerified e user) then
        match Main.createTempURL (world s) user "qr" with
        | Fail err =>
          (s, [http_Error ("Got an error creating temp url: " +:+ err)
                          StatusInternalServerError])
        | Ok a => (s, [http_Redirect a StatusSeeOther])
        end
      else if decide (Method r = "POST") then
        match Form r with
        | Fail err =>
          (s, [http_Error ("Got an error parsing form: " +:+ err) StatusBadRequest])
        | Ok form =>
          let otp := Get form "otp" in
          match getUserSecret e s user with
          | (s, Fail err) =>
            (s, [http_Error ("Failed to get user's OTP secret: " +:+ err)
                            StatusBadRequest])
          | (s, Ok secret) =>
            if decide (secret = EmptyString) then
              (s, [http_Error ("{" +:+ in_quotes "m" +:+ ": "
                                 +:+ in_quotes "User has no OTP configured" +:+ "}")
                              StatusUnauthorized])
            else if negb (Validate e otp secret) then
              (s, page "Wrong One Time Password, please try again" peers)
            else if bool_decide (is_Some (form !! "rmrf")) then
              let s := foldl (fun s p => del s (Key e p)) s peers in
              let s := del s ("user:" +:+ user) in
              (s, [Write HTMLPostrmrf])
            else
              match verify_loop e s form peers with
              | (s, _, Some err) =>
                (s, [http_Error ("Failed to verify peer: " +:+ err)
                                StatusInternalServerError])
              | (s, peers, None) => (s, page "Your PeerBook was updated" peers)
              end
          end
        end
      else if decide (Method r = "GET") then (s, page (Get (Query r) "m") peers)
      else (s, [http_Error "Method not allowed" StatusMethodNotAllowed])
    end
  end.

(** The part of [serveQR] after the label [render]. *)
Definition serveQR_render (e : Env) (s : Site) (user msg : string)
    : Site * list Call :=
  match getUserKey e s user with
  | (s, Fail err) =>
    (s, [http_Error ("Failed to get users secret key QR iomage: " +:+ err)
                    StatusInternalServerError])
  | (s, Ok key) =>
    match Image e key with
    | Fail err =>
      (s, [http_Error ("Failed to get the QR image: " +:+ err)
                      StatusInternalServerError])
    | Ok img =>
      let file := PB_STATIC_ROOT e +:+ "/qr.tmpl" in
      match ParseFiles e file with
      | Some err =>
        (s, [http_Error ("Failed to parse the template: " +:+ err)
                        StatusInternalServerError])
      | None =>
        let d :=
          match Main.CreateToken (Main.db (world s)) user with
          | Fail err =>
            {| Message := "Failed to create temp url: " +:+ err; User := user;
               Peers := []; Image_ := img; Token := EmptyString |}
          | Ok token =>
            {| Message := msg; User := user; Peers := []; Image_ := img;
               Token := token |}
          end in
        (s, Execute file d
            :: match Execute_error e file with
               | Some err =>
                 [http_Error ("Failed to execute the QR template: " +:+ err)
                             StatusInternalServerError]
               | None => []
               end)
      end
    end
  end.

Definition serveQR (e : Env) (s : Site) (r : Request) : Site * list Call :=
  match getUserFromRequest e r with
  | Panics => (s, [Panic])
  | Err err =>
    (s, [http_Error ("Failed to parse url: " +:+ err) StatusInternalServerError])
  | Value user =>
    if IsQRVerified e user then
      (s, [http_Error "Your QR was already scanned and verified.
If you lost your device please use the account-recovery channel on our discord server"
                      StatusNotImplemented])
    else if decide (Method r = "POST") then
      match Form r with
      | Fail err => serveQR_render e s user ("Bad Form: " +:+ err)
      | Ok form =>
        match getUserSecret e s user with
        | (s, Fail err) =>
          serveQR_render e s user ("Failed to get user's secret: " +:+ err)
        | (s, Ok secret) =>
          let otp := Get form "otp" in
          if negb (Validate e otp secret) then
            serveQR_render e s user
              "One Time Password validation failed, please try again"
          else
            match Main.createTempURL (world s) user "pb" with
            | Fail err =>
              serveQR_render e s user ("Failed to create temp url: " +:+ err)
            | Ok a =>
              let a := a +:+ "?m=" +:+ url.PathEscape "One Time Password verified" in
              let s := call s (SetQRVerified user) in
              match SetQRVerified_error e user with
              | Some err =>
                serveQR_render e s user ("failed to save QRVerified: " +:+ err)
              | None => (s, [http_Redirect a StatusSeeOther])
              end
            end
        end
      end
    else if decide (Method r ≠ "GET") then
      (s, [http_Error "Method not allowed" StatusMethodNotAllowed])
    else serveQR_render e s user EmptyString
  end.

End Pages.

(** ** Vocabulary of the properties *)

Module Props.
Import Session.






(** The events a read loop may produce by itself. *)
Definition loop_event (e : Event) : Prop :=
  match e with
  | HubRequest _ | LogError _ => True
  | _ => False
  end.

(** The selections after which the write loop goes round again. *)
Definition goes_on (s : Select) : Prop :=
  match s with
  | RecvClosed | Tick false => False
  | _ => True
  end.

(** The events of the write loop proper. *)
Definition write_event (e : Event) : Prop :=
  match e with
  | WsClose | TickerStop | HubUnregister | HubRequest _ | LogError _ => False
  | _ => True
  end.

(** The runs of two tasks side by side. *)
Inductive Interleave {A : Type} : list A -> list A -> list A -> Prop :=
| Interleave_nil : Interleave [] [] []
| Interleave_left x l r m : Interleave l r m -> Interleave (x :: l) r (x :: m)
| Interleave_right x l r m : Interleave l r m -> Interleave l (x :: r) (x :: m).

Definition tagged (t : Task) (tr : list Event) : list (Task * Event) :=
  map (pair t) tr.

Definition is_close (e : Task * Event) : bool :=
  match e.2 with
  | WsClose => true
  | _ => false
  end.

Definition by_task (t : Task) (e : Task * Event) : bool :=
  match e.1, t with
  | ReadPumpTask, ReadPumpTask | WritePumpTask, WritePumpTask => true
  | _, _ => false
  end.

(** How often [Close] is called on the socket in a run. *)
Definition closes (run : list (Task * Event)) : nat :=
  length (filter (fun e => Is_true (is_close e)) run).

(** How often one task calls it. *)
Definition closes_by (t : Task) (run : list (Task * Event)) : nat :=
  length (filter (fun e => Is_true (is_close e && by_task t e)) run).

(** A run of a session in which both tasks came to their end. *)
Inductive SessionRun (p : Peer) (now : Z) (input : list (Z * Incoming))
    (sel : list Select) : list (Task * Event) -> Prop :=
| SessionRun_intro rtr rex wtr wex run :
    readPump p now input = (rtr, rex) ->
    writePump p sel = (wtr, wex) ->
    finished rex = true -> finished wex = true ->
    Interleave (tagged ReadPumpTask rtr) (tagged WritePumpTask wtr) run ->
    SessionRun p now input sel run.

(** The socket is closed by one call, and that call ends the run. *)
Definition closed_once_at_the_end (run : list (Task * Event)) : Prop :=
  exists t pre, run = pre ++ [(t, WsClose)] /\ closes pre = 0%nat.

(** *** Sample data *)

Definition doc0 : PeerDoc :=
  {| user := "alice@example.com"; fingerprint := "FP-A"; name := "laptop";
     kind := "terminal7" |}.

Definition peer0 : Peer :=
  {| ws := true; send := make_chan 8; authenticated := true; pd := Some doc0 |}.

Definition stranger : Peer :=
  {| ws := true; send := make_chan 8; authenticated := false; pd := None |}.

Definition hello : gmap string string :=
  {[ "target" := "FP-B"; "msg" := "hi" ]}.

Definition forged : gmap string string :=
  {[ "target" := "FP-B"; "msg" := "hi"; "source_fp" := "FP-EVIL" ]}.

(** A redis that knows [FP-A] only, used through redigo. *)
Definition redis0 : Redis :=
  {| Do_EXISTS := fun key => Ok (bool_decide (key = "peer:FP-A"));
     Do_HGETALL := fun key =>
       if bool_decide (key = "peer:FP-A")
       then Ok [("user", "alice@example.com"); ("fingerprint", "FP-A");
                ("name", "laptop"); ("kind", "terminal7")]
       else Ok [];
     ScanStruct := redis_ScanStruct |}.

Definition hub0 : Hub := {| redis := redis0 |}.

(** The status pushed at a refused handshake. *)
Definition notice : Msg :=
  MStatus {| status_code := 401; description := Error (PeerNotFound EmptyString) |}.

(** The read task runs to its end, then the write task does. *)
Definition run0 : list (Task * Event) :=
  tagged ReadPumpTask [HubUnregister; WsClose]
  ++ tagged WritePumpTask [SetWriteDeadline; WsCloseMessage; TickerStop; WsClose].

Definition connect (fp user name kind : string) : Request :=
  {| query := {[ "fingerprint" := [fp]; "user" := [user];
                 "name" := [name]; "kind" := [kind] ]};
     upgradable := true |}.

(** What [newPeer] has for the persisted record of a fingerprint: what
    the client library scanned from the hash. *)
Definition persisted (r : Redis) (fp : string) : reply PeerDoc :=
  ScanStruct r (redis_Values (Do_HGETALL r ("peer:" +:+ fp))).

(** What the store holds in a field of the hash of a fingerprint. *)
Definition stored (r : Redis) (fp field : string) : string :=
  default EmptyString
    ((list_to_map (redis_Values (Do_HGETALL r ("peer:" +:+ fp)))
        : gmap string string) !! field).

(** The connection claims no name, no user and no kind. *)
Definition claims_nothing (q : Values) : Prop :=
  Get q "name" = EmptyString /\ Get q "user" = EmptyString /\
  Get q "kind" = EmptyString.

(** A connection that gives its fingerprint and nothing else. *)
Definition bare (fp : string) : Request :=
  {| query := {[ "fingerprint" := [fp] ]}; upgradable := true |}.

(** The store says whether it knows the fingerprint. *)
Definition known (r : Redis) (fp : string) (b : bool) : Prop :=
  Do_EXISTS r ("peer:" +:+ fp) = Ok b.

Definition doc1 : PeerDoc :=
  {| user := "bob@example.com"; fingerprint := "FP-B"; name := "server";
     kind := "webexec" |}.

Definition peer1 : Peer :=
  {| ws := true; send := make_chan 8; authenticated := true; pd := Some doc1 |}.

Definition registry0 : gmap string Peer := {[ "FP-B" := peer1 ]}.

Definition db0 : Main.DBType :=
  {| Main.peers :=
       {[ "FP-A" := Main.NewPeer "FP-A" "laptop" "alice@example.com" "terminal7" ]};
     Main.failing := [];
     Main.throttled := ∅;
     Main.CreateToken := fun email => Ok ("token-for-" +:+ email) |}.

Definition world0 : Main.World :=
  {| Main.db := db0; Main.PB_HOME_URL := EmptyString; Main.smtp_up := true;
     Main.outbox := [] |}.

Definition verify (fp email name kind : string) : Main.Request :=
  {| Main.Method := "POST";
     Main.Body := Some {[ "fp" := fp; "email" := email; "name" := name;
                          "kind" := kind ]} |}.

(** *** Further vocabulary *)

(** The requests among the effects of a task, in order. *)
Definition requests (tr : list Event) : list (gmap string string) :=
  omap (fun e => match e with HubRequest m => Some m | _ => None end) tr.

(** The two assignments of [readPump] on a decoded frame. *)
Definition inject (d : PeerDoc) (m : gmap string string) : gmap string string :=
  <["source_name" := name d]> (<["source_fp" := fingerprint d]> m).

(** The objects the remote end sends up to the first item that cannot be
    forwarded: an oversize or undecodable frame, [null], or a close. *)
Fixpoint readable (input : list (Z * Incoming)) : list (gmap string string) :=
  match input with
  | [] => []
  | (_, Pong) :: rest => readable rest
  | (_, Text size (Object f)) :: rest =>
    if (maxMessageSize <? size)%Z then [] else f :: readable rest
  | _ => []
  end.

(** What becomes of a sequence of frames decoded one after the other
    into the same map. *)
Fixpoint forwarded (d : PeerDoc) (message : gmap string string)
    (frames : list (gmap string string)) : list (gmap string string) :=
  match frames with
  | [] => []
  | f :: frames =>
    let m := inject d (f ∪ message) in m :: forwarded d m frames
  end.

(** The request holds every field of the frame but the source fields,
    and those of the session. *)
Definition carries (d : PeerDoc) (m f : gmap string string) : Prop :=
  m !! "source_fp" = Some (fingerprint d) /\
  m !! "source_name" = Some (name d) /\
  forall k v, k <> "source_fp" -> k <> "source_name" ->
              f !! k = Some v -> m !! k = Some v.

Definition is_null (a : Z * Incoming) : Prop :=
  match a.2 with
  | Text _ Null => True
  | _ => False
  end.

Definition is_pong (a : Z * Incoming) : Prop :=
  match a.2 with
  | Pong => True
  | _ => False
  end.

Definition arrives_by (deadline : Z) (a : Z * Incoming) : bool :=
  (a.1 <=? deadline)%Z.

(** The JSON frames among the effects of a task, in order. *)
Definition frames (tr : list Event) : list JObject :=
  omap (fun e => match e with WsText doc => Some doc | _ => None end) tr.

(** The messages of the selections that get written: those whose write
    succeeds, up to the selection that ends the task. *)
Fixpoint written (sel : list Select) : list Msg :=
  match sel with
  | [] => []
  | Recv m true :: rest => m :: written rest
  | Recv _ false :: rest => written rest
  | Tick true :: rest => written rest
  | RecvClosed :: _ | Tick false :: _ => []
  end.

(** Every write on the socket comes right after a write deadline was
    set. *)
Fixpoint guarded (tr : list Event) : bool :=
  match tr with
  | [] => true
  | SetWriteDeadline :: (WsText _ | WsWriteFailed | WsPing | WsCloseMessage) :: rest =>
    guarded rest
  | (LogWarn | TickerStop | WsClose | HubUnregister | HubRequest _ | LogError _) :: rest =>
    guarded rest
  | _ => false
  end.

(** Status pushes one after the other on the queue of a peer nobody
    drains. *)
Fixpoint push_all (p : Peer) (l : list (Z * error)) : option Peer :=
  match l with
  | [] => Some p
  | (code, err) :: l =>
    match sendStatus p code err with
    | Some p => push_all p l
    | None => None
    end
  end.

Definition status_of (ce : Z * error) : Msg :=
  MStatus {| status_code := ce.1; description := Error ce.2 |}.

(** The store keeps every identity under its own fingerprint. *)
Definition keyed (ps : gmap string Main.Peer) : Prop :=
  forall k p, ps !! k = Some p -> Main.FP p = k.

(** The identity with another name, as [setName] leaves it. *)
Definition renamed (name : string) (q : Main.Peer) : Main.Peer :=
  {| Main.FP := Main.FP q; Main.Name := name; Main.User := Main.User q;
     Main.Kind := Main.Kind q; Main.Verified := Main.Verified q |}.

(** Is the fingerprint of the peer among the keys of the form? *)
Definition ticked (form : Values) (p : Main.Peer) : bool :=
  bool_decide (is_Some (form !! Main.FP p)).

(** The calls that bring the verified flags of the peers in line with
    the form: one for each peer whose flag differs. *)
Definition changes (form : Values) (peers : list Main.Peer) : list Pages.DbCall :=
  omap (fun p => if bool_decide (Main.Verified p = ticked form p) then None
                 else Some (Pages.VerifyPeer (Main.FP p) (ticked form p)))
       peers.

(** A store and libraries that do not fail; the token [tok/1] is the one
    of alice, whose QR code is verified, and the passcode is 123456. *)
Definition env0 : Pages.Env :=
  {| Pages.GetToken := fun t =>
       if bool_decide (t = "tok/1") then Ok "alice@example.com"
       else if bool_decide (t = "tok2") then Ok "carol@example.com"
       else Ok EmptyString;
     Pages.IsQRVerified := fun u => bool_decide (u = "alice@example.com");
     Pages.VerifyPeer_error := fun _ _ => None;
     Pages.SetQRVerified_error := fun _ => None;
     Pages.Key := fun p => "peer:" +:+ Main.FP p;
     Pages.GET_error := None;
     Pages.SET_error := false;
     Pages.Generate := fun u => Ok ("SECRET-OF-" +:+ u);
     Pages.Validate := fun otp _ => bool_decide (otp = "123456");
     Pages.NewKeyFromURL := fun _ => None;
     Pages.Image := fun _ => Ok "iVBORw0KGgo=";
     Pages.PB_STATIC_ROOT := "/srv/static";
     Pages.ParseFiles := fun _ => None;
     Pages.Execute_error := fun _ => None |}.

Definition site0 : Pages.Site :=
  {| Pages.world := world0; Pages.kv := ∅; Pages.calls := [] |}.

Definition post (path : string) (form : Values) : Pages.Request :=
  {| Pages.Method := "POST"; Pages.Path := path; Pages.Query := ∅;
     Pages.Form := Ok form |}.

(** What [getUserFromRequest] makes of the token it has found. *)
Definition user_of_token (e : Pages.Env) (token : string) : Pages.Outcome string :=
  match Pages.GetToken e token with
  | Fail err => Pages.Err ("Failed to get token: err: " +:+ err)
  | Ok user =>
    if decide (user = EmptyString)
    then Pages.Err "Failed to get token: err: %!w(<nil>)"
    else Pages.Value user
  end.

Definition at_path (path : string) : Pages.Request :=
  {| Pages.Method := "GET"; Pages.Path := path; Pages.Query := ∅;
     Pages.Form := Ok ∅ |}.

End Props.

Import Session Props.

(** ** The read task *)

(** Pings are sent with a period of nine tenths of the pong wait. *)
Lemma pingPeriod_pongWait :
  (pingPeriod * 10 = pongWait * 9)%Z /\ (pingPeriod < pongWait)%Z.
Proof. by vm_compute. Qed.

Section ReadTask.

Implicit Types (p : Peer) (m f g : gmap string string)
  (input rest : list (Z * Incoming)) (message : option (gmap string string)).

Lemma ReadJSON_shorter deadline message input r deadline' rest :
  ReadJSON deadline message input = (r, deadline', rest) ->
  (length rest <= length input)%nat /\
  (forall x, r = Decoded x -> (length rest < length input)%nat).
Proof.
  revert deadline. induction input as [|[t x] input IH]; intros deadline; simpl.
  - intros [= <- <- <-]. split; [done | intros ? [=]].
  - destruct (deadline <? t)%Z.
    { intros [= <- <- <-]. split; [simpl; lia | intros ? [=]]. }
    destruct x as [|size payload|code].
    + intros H. apply IH in H as [H1 H2]. split; [lia|].
      intros y Hy. specialize (H2 y Hy). lia.
    + destruct (maxMessageSize <? size)%Z.
      { intros [= <- <- <-]. split; [simpl; lia | intros ? [=]]. }
      destruct payload; intros [= <- <- <-]; simpl;
        (split; [lia | intros ? _; lia]).
    + intros [= <- <- <-]. split; [simpl; lia | intros ? [=]].
Qed.

(** The loop never runs out of the fuel [readPump] gives it. *)
Lemma readLoop_fuel fuel p deadline message input :
  (length input < fuel)%nat ->
  (readLoop fuel p deadline message input).2 <> OutOfFuel.
Proof.
  revert deadline message input.
  induction fuel as [|fuel IH]; intros deadline message input Hlen; [lia|].
  simpl. destruct (ReadJSON deadline message input) as [[r deadline'] rest] eqn:HR.
  destruct r as [message'|e]; [|done].
  destruct (pd p) as [d|]; [|done].
  destruct message' as [m|]; [|done].
  apply ReadJSON_shorter in HR as [_ HR]. specialize (HR _ eq_refl).
  specialize (IH deadline'
    (Some (<["source_name":=name d]> (<["source_fp":=fingerprint d]> m))) rest).
  destruct (readLoop fuel p deadline' _ rest) as [tr ex]. simpl in *.
  apply IH. lia.
Qed.

Lemma readLoop_not_blocked fuel p deadline message input :
  (readLoop fuel p deadline message input).2 <> Blocked /\
  (readLoop fuel p deadline message input).2 <> Returned.
Proof.
  revert deadline message input.
  induction fuel as [|fuel IH]; intros deadline message input; [done|].
  simpl. destruct (ReadJSON deadline message input) as [[r deadline'] rest].
  destruct r as [message'|e]; [|done].
  destruct (pd p) as [d|]; [|done].
  destruct message' as [m|]; [|done].
  specialize (IH deadline'
    (Some (<["source_name":=name d]> (<["source_fp":=fingerprint d]> m))) rest).
  by destruct (readLoop fuel p deadline' _ rest).
Qed.

(** Whatever arrives, the read task comes to its end: the deferred
    function has run. *)
Lemma readPump_finishes p now input :
  finished (readPump p now input).2 = true.
Proof.
  unfold readPump. destruct (ws p); [|done].
  pose proof (readLoop_fuel (S (length input)) p (now + pongWait) None input
                ltac:(lia)) as H1.
  pose proof (readLoop_not_blocked (S (length input)) p (now + pongWait) None
                input) as [H2 _].
  destruct (readLoop _ p _ None input) as [tr ex]. simpl in *.
  by destruct ex.
Qed.

(** The loop itself only forwards requests and logs. *)
Lemma readLoop_events fuel p deadline message input :
  Forall loop_event (readLoop fuel p deadline message input).1.
Proof.
  revert deadline message input.
  induction fuel as [|fuel IH]; intros deadline message input; simpl; [done|].
  destruct (ReadJSON deadline message input) as [[r deadline'] rest].
  destruct r as [message'|e].
  - destruct (pd p) as [d|]; [|done].
    destruct message' as [m|]; [|done].
    specialize (IH deadline'
      (Some (<["source_name":=name d]> (<["source_fp":=fingerprint d]> m))) rest).
    destruct (readLoop fuel p deadline' _ rest) as [tr ex]. simpl in *.
    by constructor.
  - simpl. destruct (IsUnexpectedCloseError e _); repeat constructor.
Qed.


End ReadTask.

Section SourceFields.

Implicit Types (p : Peer) (m f g old : gmap string string).






End SourceFields.



(** C4.  When the read task leaves its loop on a read error, whatever its
    kind, the effects it has performed end with one unregistration sent
    to the hub followed by the close of the socket, and neither occurs
    before. *)
Theorem readPump_read_error_unregisters_once (p : Peer) (now : Z)
    (input : list (Z * Incoming)) (e : ReadError) :
  (readPump p now input).2 = Broke e ->
  exists pre, (readPump p now input).1 = pre ++ [HubUnregister; WsClose] /\
              (HubUnregister ∉ pre) /\ (WsClose ∉ pre).
Proof.
  unfold readPump. destruct (ws p); [|done].
  pose proof (readLoop_events (S (length input)) p (now + pongWait) None input)
    as Hev.
  destruct (readLoop _ p _ None input) as [tr ex]. simpl in *.
  intros _. exists tr. split; [done|].
  rewrite Forall_forall in Hev.
  split; intros Hin; apply (Hev _ Hin).
Qed.

Lemma readPump_read_error_unregisters_once_witness :
  exists pre,
    (readPump peer0 0 [(1%Z, Text 40 (Object hello)); (2%Z, Text 9 Malformed)]).1
    = pre ++ [HubUnregister; WsClose] /\
    (HubUnregister ∉ pre) /\ (WsClose ∉ pre).
Proof.
  apply (readPump_read_error_unregisters_once peer0 0
           [(1%Z, Text 40 (Object hello)); (2%Z, Text 9 Malformed)] ErrDecode).
  reflexivity.
Defined.

(** Each kind of read error makes the task leave its loop: a payload
    that does not decode, a frame over the size limit, a close from the
    remote end, and silence until the deadline. *)
Lemma readPump_breaks_on_each_kind (p : Peer) (now t size code : Z)
    (payload : Payload) (rest : list (Z * Incoming)) :
  ws p = true -> (t <= now + pongWait)%Z ->
  (size <= maxMessageSize)%Z ->
  (readPump p now ((t, Text size Malformed) :: rest)).2 = Broke ErrDecode /\
  (readPump p now ((t, Text (maxMessageSize + 1) payload) :: rest)).2
  = Broke ErrReadLimit /\
  (readPump p now ((t, CloseFrame code) :: rest)).2 = Broke (ErrClose code) /\
  (readPump p now []).2 = Broke ErrTimeout /\
  (readPump p now ((now + pongWait + 1, Pong)%Z :: rest)).2 = Broke ErrTimeout.
Proof.
  intros Hws Ht Hsize. unfold readPump. rewrite Hws.
  repeat split; simpl; unfold pongWait, Second, maxMessageSize in *;
    repeat match goal with
           | |- context [Z.ltb ?a ?b] => destruct (Z.ltb_spec a b); try lia
           end; simpl; done.
Qed.

(** The variable [message] lives across the iterations: a later frame
    is decoded into the map that still holds the fields of the earlier
    ones. *)
Lemma readPump_keeps_earlier_fields :
  (readPump peer0 0 [(1%Z, Text 40 (Object hello));
                     (2%Z, Text 20 (Object {[ "target" := "FP-C" ]}))]).1
  = [HubRequest (<["source_name":="laptop"]> (<["source_fp":="FP-A"]> hello));
     HubRequest (<["source_name":="laptop"]>
                   (<["source_fp":="FP-A"]> (<["target":="FP-C"]> hello)));
     HubUnregister; WsClose].
Proof. by vm_compute. Qed.

(** A persisted record is not enough for the read task to be safe: the
    frame [null] leaves [message] nil and the assignment panics. *)
Lemma readPump_null_frame_panics :
  readPump peer0 0 [(1%Z, Text 4 Null)]
  = ([HubUnregister; WsClose], Panicked NilMap).
Proof. reflexivity. Qed.

Lemma readPump_stranger_panics :
  readPump stranger 0 [(1%Z, Text 40 (Object hello))]
  = ([HubUnregister; WsClose], Panicked NilPointer).
Proof. reflexivity. Qed.

(** Pongs keep the session alive past the first window; without them a
    frame that comes after the window is never read. *)
Lemma readPump_deadline :
  (readPump peer0 0 [(pongWait, Pong); ((pongWait + 5)%Z, Text 40 (Object hello))]).1
  = [HubRequest (<["source_name":="laptop"]> (<["source_fp":="FP-A"]> hello));
     HubUnregister; WsClose] /\
  readPump peer0 0 [((pongWait + 5)%Z, Text 40 (Object hello))]
  = ([HubUnregister; WsClose], Broke ErrTimeout).
Proof. split; by vm_compute. Qed.

(** With a record the loop never finds it nil. *)
Lemma readLoop_no_nil_record fuel p deadline message input :
  pd p <> None -> (readLoop fuel p deadline message input).2 <> Panicked NilPointer.
Proof.
  intros Hpd. revert deadline message input.
  induction fuel as [|fuel IH]; intros deadline message input; simpl; [done|].
  destruct (ReadJSON deadline message input) as [[[m|e] deadline'] rest];
    [|done].
  destruct (pd p) as [d|]; [|done].
  destruct m as [m|]; [|done].
  specialize (IH deadline' (Some (<["source_name":=name d]>
                                    (<["source_fp":=fingerprint d]> m))) rest).
  by destruct (readLoop fuel p deadline' _ rest) as [tr ex].
Qed.

(** C8.  A connection with a fingerprint the store does not know gets a
    session without persisted record; once its socket is upgraded, the
    first frame the read task decodes makes it dereference the nil
    record and panic; and the read task of an upgraded session is free of
    that panic, whatever arrives, exactly when the session has a
    persisted record. *)
Theorem readPump_needs_persisted_record (hub : Hub) (r : Request)
    (ob : list Notification) :
  Get (query r) "fingerprint" <> EmptyString ->
  Do_EXISTS (redis hub) ("peer:" +:+ Get (query r) "fingerprint") = Ok false ->
  upgradable r = true ->
  (exists p, session (serveWs hub r ob) = Some p /\ pd p = None /\
     forall now input message deadline rest,
       ReadJSON (now + pongWait) None input = (Decoded message, deadline, rest) ->
       (readPump p now input).2 = Panicked NilPointer) /\
  (forall p, ws p = true ->
     ((forall now input, (readPump p now input).2 <> Panicked NilPointer) <->
      pd p <> None)).
Proof.
  intros Hfp Hex Hup. split.
  - unfold serveWs, newPeer. rewrite Hex.
    destruct (decide _) as [|_]; [done|]. simpl.
    unfold upgrade_and_go, Upgrade. simpl. rewrite Hup.
    eexists. split; [done|]. split; [done|].
    intros now input message deadline rest HR.
    unfold readPump. simpl. by rewrite HR.
  - intros p Hws. split.
    + intros Hsafe Hpd.
      apply (Hsafe 0%Z [(0%Z, Text 0 (Object ∅))]).
      unfold readPump. rewrite Hws. simpl. by rewrite Hpd.
    + intros Hpd now input. unfold readPump. rewrite Hws.
      pose proof (readLoop_no_nil_record (S (length input)) p (now + pongWait)
                    None input Hpd) as H.
      by destruct (readLoop _ p _ None input) as [tr ex].
Qed.

Lemma readPump_needs_persisted_record_witness :
  exists p, session (serveWs hub0 (connect "FP-X" "eve@example.com" "x" "t7") [])
            = Some p /\ pd p = None /\
            (readPump p 0 [(1%Z, Text 40 (Object hello))]).2 = Panicked NilPointer.
Proof.
  destruct (readPump_needs_persisted_record hub0
              (connect "FP-X" "eve@example.com" "x" "t7") [])
    as [(p & Hs & Hpd & Hpanic) _]; [by vm_compute | reflexivity | reflexivity |].
  exists p. split; [done|]. split; [done|].
  by apply (Hpanic 0%Z [(1%Z, Text 40 (Object hello))] (Some hello)
              (0 + pongWait)%Z []).
Defined.

(** ** The write task *)

Section WriteTask.

Implicit Types (p : Peer) (sel pre rest : list Select).

Lemma writeLoop_exit sel :
  (writeLoop sel).2 = Blocked \/ (writeLoop sel).2 = Returned.
Proof.
  induction sel as [|[message written| |written] sel IH]; simpl; auto.
  - destruct (writeLoop sel) as [tr ex]. by destruct written.
  - destruct written; [|auto]. by destruct (writeLoop sel).
Qed.

(** The loop neither closes the socket nor stops the ticker. *)
Lemma writeLoop_events sel : Forall write_event (writeLoop sel).1.
Proof.
  induction sel as [|[message written| |written] sel IH]; simpl.
  - constructor.
  - destruct (writeLoop sel) as [tr ex].
    destruct written; simpl in *; by repeat constructor.
  - by repeat constructor.
  - destruct written; [|by repeat constructor].
    destruct (writeLoop sel) as [tr ex]. simpl in *. by repeat constructor.
Qed.

(** A prefix of selections after which the loop goes on only adds its
    effects in front. *)
Lemma writeLoop_goes_on pre rest :
  Forall goes_on pre ->
  writeLoop (pre ++ rest)
  = ((writeLoop pre).1 ++ (writeLoop rest).1, (writeLoop rest).2).
Proof.
  induction 1 as [|s pre Hs _ IH]; simpl.
  - by destruct (writeLoop rest).
  - destruct s as [message written| |written]; try done.
    + rewrite IH. destruct (writeLoop pre) as [tr ex].
      by destruct written.
    + destruct written; [|done]. rewrite IH.
      by destruct (writeLoop pre).
Qed.

Lemma writePump_goes_on p pre rest :
  ws p = true -> Forall goes_on pre ->
  writePump p (pre ++ rest)
  = ((writeLoop pre).1 ++ (writePump p rest).1, (writePump p rest).2).
Proof.
  intros Hws Hpre. unfold writePump. rewrite Hws.
  rewrite (writeLoop_goes_on pre rest Hpre).
  destruct (writeLoop rest) as [tr ex]. simpl.
  destruct (finished ex); simpl; [|done]. by rewrite <- app_assoc.
Qed.

End WriteTask.

(** C5, as the code has it.  A failed keepalive write ends the write
    task: it returns, running its deferred function, and looks at nothing
    that comes later.  A failed write of an application message does not:
    the failure is logged and the task goes on with whatever comes next,
    and with nothing more to come it is back waiting in its [select]. *)
Theorem writePump_send_failure (p : Peer) (pre rest : list Select) (m : Msg) :
  ws p = true -> Forall goes_on pre ->
  writePump p (pre ++ Tick false :: rest)
  = ((writeLoop pre).1 ++ [SetWriteDeadline; WsWriteFailed; TickerStop; WsClose],
     Returned) /\
  writePump p (pre ++ Recv m false :: rest)
  = ((writeLoop pre).1 ++ [SetWriteDeadline; WsWriteFailed; LogWarn]
       ++ (writePump p rest).1,
     (writePump p rest).2) /\
  (writePump p (pre ++ [Recv m false])).2 = Blocked.
Proof.
  intros Hws Hpre. split; [|split].
  - rewrite (writePump_goes_on p pre _ Hws Hpre).
    unfold writePump. by rewrite Hws.
  - rewrite (writePump_goes_on p pre _ Hws Hpre). f_equal.
    + f_equal. unfold writePump. rewrite Hws. simpl.
      destruct (writeLoop rest) as [tr ex]. simpl. by destruct (finished ex).
    + unfold writePump. rewrite Hws. simpl.
      destruct (writeLoop rest) as [tr ex]. simpl. by destruct (finished ex).
  - rewrite (writePump_goes_on p pre _ Hws Hpre).
    unfold writePump. by rewrite Hws.
Qed.

Lemma writePump_send_failure_witness :
  writePump peer0 [Tick true; Tick false; Recv notice true]
  = ([SetWriteDeadline; WsPing; SetWriteDeadline; WsWriteFailed; TickerStop;
      WsClose], Returned).
Proof.
  apply (writePump_send_failure peer0 [Tick true] [Recv notice true] notice).
  - reflexivity.
  - repeat constructor.
Defined.

(** C5, as stated, fails: after a failed write of an application message
    the task has not ended; it takes the next message from the queue,
    tries to write it, and waits. *)
Lemma writePump_survives_failed_message :
  finished (writePump peer0 [Recv notice false]).2 = false /\
  writePump peer0 [Recv notice false; Recv (MRequest hello) false]
  = ([SetWriteDeadline; WsWriteFailed; LogWarn;
      SetWriteDeadline; WsWriteFailed; LogWarn], Blocked).
Proof. split; reflexivity. Qed.

(** C9.  What [WriteJSON] puts on the wire for a status message is the
    empty object: both fields of [StatusMessage] are unexported, so the
    frame carries neither a status code nor a description. *)
Theorem status_frame_has_no_fields (s : StatusMessage) :
  WriteJSON (MStatus s) = ∅ /\
  WriteJSON (MStatus s) !! "status_code" = None /\
  WriteJSON (MStatus s) !! "description" = None.
Proof.
  assert (WriteJSON (MStatus s) = (∅ : gmap string JSON)) as -> by reflexivity.
  repeat split; apply lookup_empty.
Qed.

(** The 401 of a refused handshake, as the write task sends it. *)
Lemma handshake_status_on_the_wire :
  writePump peer0 [Recv notice true] = ([SetWriteDeadline; WsText ∅], Blocked).
Proof. reflexivity. Qed.

(** [encoding/json] does marshal exported fields, and the entries of a
    request map. *)
Lemma Marshal_struct_exported :
  Marshal_struct [("StatusCode", JNum 401); ("description", JStr "no")]
  = {[ "StatusCode" := JNum 401 ]}.
Proof. reflexivity. Qed.

Lemma WriteJSON_request (m : gmap string string) (k : string) :
  WriteJSON (MRequest m) !! k = JStr <$> (m !! k).
Proof. unfold WriteJSON, Marshal_map. apply lookup_fmap. Qed.

(** ** Both tasks and the socket *)

Section Socket.

Implicit Types (p : Peer) (run : list (Task * Event)).

Lemma closes_app run run' : closes (run ++ run') = (closes run + closes run')%nat.
Proof. unfold closes. by rewrite filter_app, length_app. Qed.

Lemma closes_by_app t run run' :
  closes_by t (run ++ run') = (closes_by t run + closes_by t run')%nat.
Proof. unfold closes_by. by rewrite filter_app, length_app. Qed.

Lemma Interleave_closes run1 run2 run :
  Interleave run1 run2 run -> closes run = (closes run1 + closes run2)%nat.
Proof.
  induction 1 as [|x l r m _ IH|x l r m _ IH]; [done| |];
    unfold closes in *; rewrite !filter_cons; destruct (decide _); simpl; lia.
Qed.

Lemma Interleave_closes_by t run1 run2 run :
  Interleave run1 run2 run ->
  closes_by t run = (closes_by t run1 + closes_by t run2)%nat.
Proof.
  induction 1 as [|x l r m _ IH|x l r m _ IH]; [done| |];
    unfold closes_by in *; rewrite !filter_cons; destruct (decide _); simpl; lia.
Qed.

Lemma tagged_app t tr tr' : tagged t (tr ++ tr') = tagged t tr ++ tagged t tr'.
Proof. apply map_app. Qed.

Lemma closes_loop_events t tr : Forall loop_event tr -> closes (tagged t tr) = 0%nat.
Proof.
  induction 1 as [|e tr He _ IH]; [done|].
  unfold closes in *. simpl. rewrite filter_cons.
  destruct e; try done; by destruct (decide _).
Qed.

Lemma closes_write_events t tr : Forall write_event tr -> closes (tagged t tr) = 0%nat.
Proof.
  induction 1 as [|e tr He _ IH]; [done|].
  unfold closes in *. simpl. rewrite filter_cons.
  destruct e; try done; by destruct (decide _).
Qed.

(** The read task of an upgraded session ends with its only close. *)
Lemma readPump_trace p now input :
  ws p = true ->
  exists pre, (readPump p now input).1 = pre ++ [HubUnregister; WsClose] /\
              closes (tagged ReadPumpTask (pre ++ [HubUnregister])) = 0%nat.
Proof.
  intros Hws. unfold readPump. rewrite Hws.
  pose proof (readLoop_events (S (length input)) p (now + pongWait) None input)
    as Hev.
  destruct (readLoop _ p _ None input) as [tr ex]. simpl in *.
  exists tr. split; [done|].
  by rewrite tagged_app, closes_app, (closes_loop_events _ _ Hev).
Qed.

(** So does the write task, once it has come to its end. *)
Lemma writePump_trace p sel :
  ws p = true -> finished (writePump p sel).2 = true ->
  exists pre, (writePump p sel).1 = pre ++ [TickerStop; WsClose] /\
              closes (tagged WritePumpTask (pre ++ [TickerStop])) = 0%nat.
Proof.
  intros Hws. unfold writePump. rewrite Hws.
  pose proof (writeLoop_events sel) as Hev.
  destruct (writeLoop sel) as [tr ex]. simpl in *. intros Hfin.
  rewrite Hfin. simpl. exists tr. split; [done|].
  by rewrite tagged_app, closes_app, (closes_write_events _ _ Hev).
Qed.

End Socket.

(** C7, as the code has it.  In a run of an upgraded session in which
    both tasks come to their end, each task closes the socket once, as
    the last thing it does: the read task after its unregistration, the
    write task after stopping its ticker.  The run thus has two calls of
    [Close], the first of them as soon as one task is done. *)
Theorem session_closes_socket_per_task (p : Peer) (now : Z)
    (input : list (Z * Incoming)) (sel : list Select)
    (run : list (Task * Event)) :
  ws p = true -> SessionRun p now input sel run ->
  (exists rpre wpre,
     Interleave (tagged ReadPumpTask (rpre ++ [HubUnregister; WsClose]))
                (tagged WritePumpTask (wpre ++ [TickerStop; WsClose])) run /\
     closes (tagged ReadPumpTask (rpre ++ [HubUnregister])) = 0%nat /\
     closes (tagged WritePumpTask (wpre ++ [TickerStop])) = 0%nat) /\
  closes run = 2%nat /\
  closes_by ReadPumpTask run = 1%nat /\ closes_by WritePumpTask run = 1%nat.
Proof.
  intros Hws [rtr rex wtr wex run' Hr Hw _ Hwfin Hrun].
  destruct (readPump_trace p now input Hws) as (rpre & Hrtr & Hrc).
  destruct (writePump_trace p sel Hws) as (wpre & Hwtr & Hwc).
  { by rewrite Hw. }
  rewrite Hr in Hrtr. rewrite Hw in Hwtr. simpl in *. subst rtr wtr.
  split; [by exists rpre, wpre|].
  rewrite (Interleave_closes _ _ _ Hrun).
  rewrite (Interleave_closes_by ReadPumpTask _ _ _ Hrun).
  rewrite (Interleave_closes_by WritePumpTask _ _ _ Hrun).
  replace (rpre ++ [HubUnregister; WsClose])
    with ((rpre ++ [HubUnregister]) ++ [WsClose]) by by rewrite <- app_assoc.
  replace (wpre ++ [TickerStop; WsClose])
    with ((wpre ++ [TickerStop]) ++ [WsClose]) by by rewrite <- app_assoc.
  generalize dependent (rpre ++ [HubUnregister]). intros r1 Hrc.
  generalize dependent (wpre ++ [TickerStop]). intros w1 Hwc.
  rewrite !tagged_app, !closes_app, !closes_by_app, Hrc, Hwc.
  assert (forall t t' tr, closes (tagged t' tr) = 0 ->
            closes_by t (tagged t' tr) = 0)%nat as Hby.
  { intros t t' tr. unfold closes, closes_by.
    induction tr as [|e tr IH]; [done|]. simpl. rewrite !filter_cons.
    destruct (decide (is_close (t', e))) as [Hc|Hc]; [done|].
    intros H0. destruct (decide _) as [Hc'|_]; [|by apply IH].
    destruct Hc. by destruct (is_close (t', e)). }
  rewrite !(Hby _ _ r1 Hrc), !(Hby _ _ w1 Hwc). by vm_compute.
Qed.

Lemma session_closes_socket_per_task_witness :
  closes run0 = 2%nat /\
  closes_by ReadPumpTask run0 = 1%nat /\ closes_by WritePumpTask run0 = 1%nat.
Proof.
  refine (proj2 (session_closes_socket_per_task peer0 0 [] [RecvClosed] run0
                   eq_refl _)).
  apply (SessionRun_intro peer0 0 [] [RecvClosed]
           [HubUnregister; WsClose] (Broke ErrTimeout)
           [SetWriteDeadline; WsCloseMessage; TickerStop; WsClose] Returned);
    try reflexivity.
  unfold run0. simpl. repeat constructor.
Defined.

(** C7, as stated, fails: in this run of a session the socket is closed
    by the read task while the write task has yet to do all it does, and
    [Close] is called a second time at the end. *)
Lemma socket_closed_twice :
  SessionRun peer0 0 [] [RecvClosed] run0 /\
  run0 !! 1%nat = Some (ReadPumpTask, WsClose) /\
  run0 !! 2%nat = Some (WritePumpTask, SetWriteDeadline) /\
  ~ closed_once_at_the_end run0.
Proof.
  split; [|split; [reflexivity | split; [reflexivity|]]].
  - apply (SessionRun_intro peer0 0 [] [RecvClosed]
             [HubUnregister; WsClose] (Broke ErrTimeout)
             [SetWriteDeadline; WsCloseMessage; TickerStop; WsClose] Returned);
      try reflexivity.
    unfold run0. simpl. repeat constructor.
  - intros (t & pre & Hrun & Hpre).
    assert (closes run0 = 1%nat) as H1.
    { rewrite Hrun, closes_app, Hpre. reflexivity. }
    discriminate H1.
Qed.

(** ** The handshake *)

(** C2.  For a fingerprint the store does not know, [serveWs] signals
    [PeerNotFound], queues the 401 status on a session that is not
    authenticated, calls the upgrade and starts both tasks; the call of
    [Peer.sendAuthEmail] on the way leaves the outbox of the notifier as
    it was: no verification mail is asked for. *)
Theorem serveWs_unknown_fingerprint (hub : Hub) (r : Request)
    (ob : list Notification) :
  Get (query r) "fingerprint" <> EmptyString ->
  known (redis hub) (Get (query r) "fingerprint") false ->
  signalled (serveWs hub r ob) = Some (PeerNotFound EmptyString) /\
  session (serveWs hub r ob)
  = Some {| ws := upgradable r;
            send := {| buf := [notice]; cap := 8; closed := false |};
            authenticated := false; pd := None |} /\
  actions (serveWs hub r ob)
  = [PushStatus 401 "Peer not found: "; CallSendAuthEmail; CallUpgrade]
      ++ (if upgradable r then [] else [LogUpgradeFailure])
      ++ [Go WritePumpTask; Go ReadPumpTask] /\
  outbox (serveWs hub r ob) = ob.
Proof.
  intros Hfp Hex. unfold known in Hex. unfold serveWs, newPeer. rewrite Hex.
  destruct (decide _) as [|_]; [done|]. simpl. by repeat split.
Qed.

Lemma serveWs_unknown_fingerprint_witness :
  actions (serveWs hub0 (connect "FP-X" "eve@example.com" "x" "t7") [])
  = [PushStatus 401 "Peer not found: "; CallSendAuthEmail; CallUpgrade;
     Go WritePumpTask; Go ReadPumpTask] /\
  outbox (serveWs hub0 (connect "FP-X" "eve@example.com" "x" "t7") []) = [].
Proof.
  destruct (serveWs_unknown_fingerprint hub0
              (connect "FP-X" "eve@example.com" "x" "t7") [])
    as (_ & _ & Ha & Ho); [by vm_compute | reflexivity |].
  split; [exact Ha | exact Ho].
Defined.

(** [%q] escapes the double quote, the backslash and the control bytes,
    and nothing else of a plain text. *)
Lemma quoted_escapes :
  quoted (String "034" (String backslash (String "010" "a")))
  = dquote +:+ String backslash dquote
      +:+ String backslash (String backslash EmptyString)
      +:+ String backslash "n" +:+ "a" +:+ dquote /\
  quoted "peer:FP-A" = in_quotes "peer:FP-A".
Proof. split; reflexivity. Qed.

(** The client library has no field of [PeerDoc] to set, and would have
    one for an exported field. *)
Lemma fieldSpec_PeerDoc (key : string) : fieldSpec PeerDoc_fields key = None.
Proof. reflexivity. Qed.

Lemma fieldSpec_exported (f : string -> PeerDoc -> PeerDoc) :
  fieldSpec [("user", f); ("Name", f)] "Name" = Some ("Name", f) /\
  fieldSpec [("user", f); ("Name", f)] "user" = None.
Proof. split; reflexivity. Qed.

Lemma redis_ScanStruct_zero (values : list (string * string)) :
  redis_ScanStruct values = Ok PeerDoc_zero.
Proof.
  unfold redis_ScanStruct. f_equal. generalize PeerDoc_zero.
  induction values as [|kv values IH]; intros d; [done|].
  cbn [foldl]. rewrite fieldSpec_PeerDoc. apply IH.
Qed.

(** [newPeer] through redigo, for a fingerprint the store knows. *)
Lemma newPeer_known (r : Redis) (q : Values) :
  redigo r -> Get q "fingerprint" <> EmptyString ->
  known r (Get q "fingerprint") true ->
  newPeer r q
  = (Some {| ws := false; send := make_chan 8;
             authenticated := bool_decide (claims_nothing q);
             pd := Some PeerDoc_zero |},
     if bool_decide (claims_nothing q) then None else Some PeerChanged).
Proof.
  intros Hlib Hfp Hex. unfold known in Hex. unfold newPeer. rewrite Hex.
  destruct (decide _) as [|_]; [done|]. simpl.
  rewrite Hlib, redis_ScanStruct_zero.
  assert (bool_decide (name PeerDoc_zero ≠ Get q "name")
          || bool_decide (user PeerDoc_zero ≠ Get q "user")
          || bool_decide (kind PeerDoc_zero ≠ Get q "kind")
          = negb (bool_decide (claims_nothing q))) as ->.
  { unfold claims_nothing. simpl.
    destruct (decide (Get q "name" = EmptyString)) as [->|Hn].
    - destruct (decide (Get q "user" = EmptyString)) as [->|Hu].
      + destruct (decide (Get q "kind" = EmptyString)) as [->|Hk].
        * reflexivity.
        * rewrite (bool_decide_eq_true_2 (EmptyString ≠ Get q "kind"))
            by (by intros H; apply Hk).
          rewrite (bool_decide_eq_false_2 (_ /\ _)) by (by intros (_ & _ & H)).
          by rewrite !orb_true_r.
      + rewrite (bool_decide_eq_true_2 (EmptyString ≠ Get q "user"))
          by (by intros H; apply Hu).
        rewrite (bool_decide_eq_false_2 (_ /\ _)) by (by intros (_ & H & _)).
        by rewrite !orb_true_r.
    - rewrite (bool_decide_eq_true_2 (EmptyString ≠ Get q "name"))
        by (by intros H; apply Hn).
      by rewrite (bool_decide_eq_false_2 (_ /\ _)) by (by intros (H & _)). }
  by destruct (bool_decide (claims_nothing q)).
Qed.

(** C6.  The client library sets no field of [PeerDoc], whose fields are
    all unexported: for a fingerprint the store knows, the record that
    [newPeer] compares the claims with is the zero value, whatever the store
    holds under the key.  So a connection that claims no name, no user and
    no kind is authenticated, with no error signalled and no status
    pushed, also when the persisted name, user or kind is another; and
    [PeerChanged] is signalled, on a session that is not authenticated,
    exactly when one of the three claims is not empty. *)
Theorem serveWs_known_fingerprint (hub : Hub) (r : Request)
    (ob : list Notification) :
  redigo (redis hub) ->
  Get (query r) "fingerprint" <> EmptyString ->
  known (redis hub) (Get (query r) "fingerprint") true ->
  persisted (redis hub) (Get (query r) "fingerprint") = Ok PeerDoc_zero /\
  pd <$> session (serveWs hub r ob) = Some (Some PeerDoc_zero) /\
  (claims_nothing (query r) ->
   signalled (serveWs hub r ob) = None /\
   authenticated <$> session (serveWs hub r ob) = Some true /\
   actions (serveWs hub r ob)
   = [CallUpgrade] ++ (if upgradable r then [] else [LogUpgradeFailure])
       ++ [Go WritePumpTask; Go ReadPumpTask]) /\
  (~ claims_nothing (query r) ->
   signalled (serveWs hub r ob) = Some PeerChanged /\
   authenticated <$> session (serveWs hub r ob) = Some false).
Proof.
  intros Hlib Hfp Hex.
  split; [unfold persisted; by rewrite Hlib, redis_ScanStruct_zero|].
  unfold serveWs. rewrite (newPeer_known _ _ Hlib Hfp Hex).
  destruct (decide (claims_nothing (query r))) as [Hc|Hc].
  - rewrite (bool_decide_eq_true_2 _ Hc). simpl.
    split; [done|]. split; [done | by intros H].
  - rewrite (bool_decide_eq_false_2 _ Hc). simpl.
    split; [done|]. split; [by intros H | done].
Qed.

Lemma serveWs_known_fingerprint_witness :
  stored redis0 "FP-A" "name" = "laptop" /\
  Get (query (bare "FP-A")) "name" = EmptyString /\
  signalled (serveWs hub0 (bare "FP-A") []) = None /\
  authenticated <$> session (serveWs hub0 (bare "FP-A") []) = Some true.
Proof.
  split; [by vm_compute|]. split; [by vm_compute|].
  destruct (serveWs_known_fingerprint hub0 (bare "FP-A") [])
    as (_ & _ & H & _).
  - intros values. reflexivity.
  - by vm_compute.
  - reflexivity.
  - destruct H as (Hs & Ha & _); [by vm_compute|]. split; [exact Hs | exact Ha].
Defined.

(** The claims of a peer that are the persisted values are refused, and
    the session goes on as one of an unknown fingerprint does, the text
    of the status apart. *)
Lemma serveWs_matching_claims :
  signalled (serveWs hub0 (connect "FP-A" "alice@example.com" "laptop"
                             "terminal7") [])
  = Some PeerChanged /\
  actions (serveWs hub0 (connect "FP-A" "alice@example.com" "laptop"
                           "terminal7") [])
  = [PushStatus 401 (Error PeerChanged); CallSendAuthEmail; CallUpgrade;
     Go WritePumpTask; Go ReadPumpTask] /\
  actions (serveWs hub0 (connect "FP-X" "eve@example.com" "x" "t7") [])
  = [PushStatus 401 (Error (PeerNotFound EmptyString)); CallSendAuthEmail;
     CallUpgrade; Go WritePumpTask; Go ReadPumpTask].
Proof. repeat split; by vm_compute. Qed.

(** ** The router *)

(** C1.  When the target fingerprint of a request is registered and the
    owning user of that session is not the owning user of the source
    session, routing fails with [PeerIsForeign] and the registry, with the
    target's outbound queue in it, stays as it was, whether or not either
    session is authenticated. *)
Theorem Route_foreign_target (peers : gmap string Peer) (source target : Peer)
    (message : gmap string string) :
  peers !! Router.target_of message = Some target ->
  Router.owner target <> Router.owner source ->
  Router.Route peers source message
  = (peers, Router.Failed (Router.PeerIsForeign (Router.owner target))) /\
  send <$> ((Router.Route peers source message).1 !! Router.target_of message)
  = Some (send target).
Proof.
  intros Ht Hown. unfold Router.Route. rewrite Ht.
  destruct (decide _) as [_|H]; [|done].
  simpl. by rewrite Ht.
Qed.

Lemma Route_foreign_target_witness :
  Router.Route registry0 peer0 hello
  = (registry0, Router.Failed (Router.PeerIsForeign (Some "bob@example.com"))).
Proof.
  apply (Route_foreign_target registry0 peer0 peer1 hello).
  - reflexivity.
  - by vm_compute.
Defined.

(** Between sessions of one user the request reaches the target's
    queue. *)
Lemma Route_same_user_delivers :
  (Router.Route registry0
     {| ws := true; send := make_chan 8; authenticated := true;
        pd := Some doc1 |} hello).2 = Router.Delivered.
Proof. reflexivity. Qed.

(** ** The verification handler *)

Section Verify.

Implicit Types (w : Main.World) (r : Main.Request) (p : Main.Peer).

Lemma PeerExists_ok w fp :
  Main.failing (Main.db w) = [] ->
  Main.PeerExists (Main.db w) fp
  = Ok (bool_decide (is_Some (Main.peers (Main.db w) !! fp))).
Proof. intros H. unfold Main.PeerExists, Main.fails. by rewrite H. Qed.

Lemma GetPeer_ok w fp p :
  Main.failing (Main.db w) = [] ->
  Main.peers (Main.db w) !! fp = Some p ->
  Main.GetPeer (Main.db w) fp = Ok p.
Proof. intros H Hp. unfold Main.GetPeer, Main.fails. by rewrite H, Hp. Qed.


(** [sendAuthEmail] enters one notification for the address and leaves
    the store alone. *)
Lemma sendAuthEmail_notifies w email :
  Main.db (Main.sendAuthEmail w email) = Main.db w /\
  exists dlv, Main.outbox (Main.sendAuthEmail w email)
              = Main.outbox w ++ [{| rcpt := email; delivery := dlv |}].
Proof.
  unfold Main.sendAuthEmail.
  destruct (negb _); [split; [done | by eexists]|].
  destruct (Main.createTempURL w email "pb"); split; try done; by eexists.
Qed.

(** With the throttle open, a token at hand and the mail server up, the
    mail goes out. *)
Lemma sendAuthEmail_sends w email token :
  email ∉ Main.throttled (Main.db w) ->
  Main.CreateToken (Main.db w) email = Ok token ->
  Main.smtp_up w = true ->
  exists link, Main.outbox (Main.sendAuthEmail w email)
               = Main.outbox w ++ [{| rcpt := email; delivery := Sent link |}].
Proof.
  intros Hth Htok Hup. unfold Main.sendAuthEmail, Main.canSendEmail.
  rewrite (bool_decide_eq_true_2 _ Hth). simpl.
  unfold Main.createTempURL. rewrite Htok, Hup. by eexists.
Qed.

End Verify.



(** The three cases on the sample store: a new fingerprint, and the owner
    coming back with a new name. *)
Lemma serveVerify_new_fingerprint :
  let w := (Main.serveVerify world0
              (verify "FP-N" "carol@example.com" "phone" "t7")).1 in
  Main.peers (Main.db w) !! "FP-N"
  = Some (Main.NewPeer "FP-N" "phone" "carol@example.com" "t7") /\
  Main.outbox w
  = [{| rcpt := "carol@example.com";
        delivery := Sent "https://pb.terminal7.dev/pb/token-for-carol@example.com" |}].
Proof. split; by vm_compute. Qed.

Lemma serveVerify_owner_renames :
  let w := (Main.serveVerify world0
              (verify "FP-A" "alice@example.com" "desktop" "terminal7")).1 in
  Main.Name <$> (Main.peers (Main.db w) !! "FP-A") = Some "desktop" /\
  rcpt <$> Main.outbox w = ["alice@example.com"].
Proof. split; by vm_compute. Qed.

(** * Further properties of the code *)

(** ** The handshake, further *)

(** X1.  A request without [fingerprint] is refused with 400 before the
    store is asked and before any upgrade: whatever the store, the
    answer is the same, no session is made and no task is started. *)
Theorem serveWs_missing_fingerprint (hub hub' : Hub) (r : Request)
    (ob : list Notification) :
  Get (query r) "fingerprint" = EmptyString ->
  serveWs hub r ob = serveWs hub' r ob /\
  actions (serveWs hub r ob)
  = [Warn "Failed to create a new peer: Missing `fingerprint` query parameters";
     HttpError "Missing `fingerprint` query parameters" 400] /\
  session (serveWs hub r ob) = None /\ outbox (serveWs hub r ob) = ob.
Proof.
  intros Hfp.
  assert (forall h, newPeer (redis h) (query r)
            = (None, Some (errorString "Missing `fingerprint` query parameters")))
    as Hnew.
  { intros h. unfold newPeer. by destruct (decide _). }
  unfold serveWs. by rewrite !Hnew.
Qed.

Lemma serveWs_missing_fingerprint_witness :
  actions (serveWs hub0 {| query := {[ "user" := ["eve@example.com"] ]};
                           upgradable := true |} [])
  = [Warn "Failed to create a new peer: Missing `fingerprint` query parameters";
     HttpError "Missing `fingerprint` query parameters" 400].
Proof.
  refine (proj1 (proj2 (serveWs_missing_fingerprint hub0 hub0
            {| query := {[ "user" := ["eve@example.com"] ]}; upgradable := true |}
            [] _))).
  reflexivity.
Defined.

Ltac in_list :=
  repeat first [rewrite elem_of_app | rewrite elem_of_cons]; auto 10.

Ltac not_in_list :=
  let H := fresh in
  intros H;
  repeat (apply elem_of_cons in H as [H|H]; [discriminate H|]);
  by apply elem_of_nil in H.

(** X2.  [serveWs] calls the upgrade and starts the two tasks exactly
    when [newPeer] could build a peer: the fingerprint is given, [EXISTS]
    answers, and either the fingerprint is unknown or its record scans.
    In every other case the answer is a 400, without upgrade or task. *)
Theorem serveWs_upgrades_iff (hub : Hub) (r : Request) (ob : list Notification) :
  (is_Some (session (serveWs hub r ob)) <->
   Get (query r) "fingerprint" <> EmptyString /\
   (known (redis hub) (Get (query r) "fingerprint") false \/
    known (redis hub) (Get (query r) "fingerprint") true /\
    exists d, persisted (redis hub) (Get (query r) "fingerprint") = Ok d)) /\
  (is_Some (session (serveWs hub r ob)) ->
   CallUpgrade ∈ actions (serveWs hub r ob) /\
   Go WritePumpTask ∈ actions (serveWs hub r ob) /\
   Go ReadPumpTask ∈ actions (serveWs hub r ob)) /\
  (session (serveWs hub r ob) = None ->
   (exists msg, last (actions (serveWs hub r ob)) = Some (HttpError msg 400)) /\
   (CallUpgrade ∉ actions (serveWs hub r ob)) /\
   forall t, Go t ∉ actions (serveWs hub r ob)).
Proof.
  unfold serveWs, newPeer, known, persisted, upgrade_and_go.
  destruct (decide (Get (query r) "fingerprint" = EmptyString)) as [Hfp|Hfp].
  { simpl. split; [|split].
    - split; [by intros [? [=]] | by intros [? _]].
    - by intros [? [=]].
    - intros _. split; [by eexists|]. split; [|intros t]; not_in_list. }
  destruct (Do_EXISTS (redis hub) _) as [[]|err] eqn:Hex; simpl.
  - destruct (ScanStruct (redis hub) _) as [d|err] eqn:Hscan; simpl.
    + assert (Get (query r) "fingerprint" ≠ EmptyString
              ∧ (Ok true = Ok false
                 ∨ Ok true = Ok true ∧ (∃ d0 : PeerDoc, Ok d = Ok d0))) as Hc.
      { split; [done|]. right. split; [done | by exists d]. }
      destruct (_ || _); simpl;
        (split; [split; [by intros _ | by intros _; eexists] |]);
        (split; [intros _; repeat split; in_list | by intros [=]]).
    + split; [|split].
      * split; [by intros [? [=]]|].
        intros [_ [[=]|[_ [d [=]]]]].
      * by intros [? [=]].
      * intros _. split; [by eexists|]. split; [|intros t]; not_in_list.
  - split; [split; [intros _; split; [done | by left] | by intros _; eexists] |].
    split; [intros _; repeat split; in_list | by intros [=]].
  - split; [|split].
    + split; [by intros [? [=]]|].
      intros [_ [[=]|[[=] _]]].
    + by intros [? [=]].
    + intros _. split; [by eexists|]. split; [|intros t]; not_in_list.
Qed.

Lemma serveWs_upgrades_iff_witness :
  CallUpgrade ∈ actions (serveWs hub0 (connect "FP-A" "alice@example.com"
                                         "laptop" "terminal7") []).
Proof.
  refine (proj1 (proj1 (proj2 (serveWs_upgrades_iff hub0
            (connect "FP-A" "alice@example.com" "laptop" "terminal7") [])) _)).
  by eexists.
Defined.

(** X3.  A peer that [newPeer] returns is authenticated exactly when no
    error comes with it, and then it holds the record scanned for the
    key, whose name, user and kind are the claimed ones.  Its queue is
    empty with room for eight and its connection is not set yet. *)
Theorem newPeer_authenticated (r : Redis) (q : Values) (p : Peer)
    (e : option error) :
  newPeer r q = (Some p, e) ->
  (authenticated p = true <-> e = None) /\
  (authenticated p = true ->
   known r (Get q "fingerprint") true /\
   exists d, pd p = Some d /\ persisted r (Get q "fingerprint") = Ok d /\
             name d = Get q "name" /\ user d = Get q "user" /\
             kind d = Get q "kind") /\
  send p = make_chan 8 /\ ws p = false.
Proof.
  unfold newPeer, known, persisted.
  destruct (decide _) as [|_]; [by intros [=]|].
  destruct (Do_EXISTS r _) as [[]|err]; simpl; [| |by intros [=]].
  - destruct (ScanStruct r _) as [d|err] eqn:Hscan; [|by intros [=]].
    destruct (bool_decide (name d ≠ _)) eqn:Hn; simpl.
    { intros [= <- <-]. by repeat split. }
    destruct (bool_decide (user d ≠ _)) eqn:Hu; simpl.
    { intros [= <- <-]. by repeat split. }
    destruct (bool_decide (kind d ≠ _)) eqn:Hk; simpl.
    { intros [= <- <-]. by repeat split. }
    intros [= <- <-]. simpl.
    apply bool_decide_eq_false, dec_stable in Hn.
    apply bool_decide_eq_false, dec_stable in Hu.
    apply bool_decide_eq_false, dec_stable in Hk.
    split; [by split|]. split; [|done]. intros _. split; [done|].
    exists d. by repeat split.
  - intros [= <- <-]. by repeat split.
Qed.

Lemma newPeer_authenticated_witness :
  exists d, persisted redis0 "FP-A" = Ok d /\
            name d = Get (query (bare "FP-A")) "name" /\
            user d = Get (query (bare "FP-A")) "user" /\
            kind d = Get (query (bare "FP-A")) "kind".
Proof.
  destruct (newPeer_authenticated redis0 (query (bare "FP-A"))
              {| ws := false; send := make_chan 8; authenticated := true;
                 pd := Some PeerDoc_zero |} None)
    as (_ & H & _); [by vm_compute|].
  destruct (H eq_refl) as (_ & d & _ & Hp & Hn & Hu & Hk).
  exists d. split; [exact Hp|]. split; [exact Hn|]. split; [exact Hu | exact Hk].
Defined.

(** X4.  A failed [HGETALL] is not reported: [newPeer] goes on as if the
    hash were empty, so that the handshake ends according to what
    [ScanStruct] makes of no values. *)
Theorem newPeer_ignores_HGETALL_failure (r : Redis) (q : Values) (err : string) :
  Do_HGETALL r ("peer:" +:+ Get q "fingerprint") = Fail err ->
  newPeer r q
  = newPeer {| Do_EXISTS := Do_EXISTS r;
               Do_HGETALL := fun _ => Ok [];
               ScanStruct := ScanStruct r |} q /\
  (known r (Get q "fingerprint") true ->
   Get q "fingerprint" <> EmptyString ->
   forall d, ScanStruct r [] = Ok d ->
             exists p e, newPeer r q = (Some p, e) /\ pd p = Some d).
Proof.
  intros Hfail. unfold newPeer, known. simpl. rewrite Hfail. simpl.
  split; [done|]. intros Hex Hfp d Hscan.
  destruct (decide _) as [|_]; [done|]. rewrite Hex, Hscan. simpl.
  destruct (_ || _); by eexists _, _.
Qed.

Lemma newPeer_ignores_HGETALL_failure_witness :
  exists p e,
    newPeer {| Do_EXISTS := Do_EXISTS redis0;
               Do_HGETALL := fun _ => Fail "connection reset";
               ScanStruct := ScanStruct redis0 |}
            (query (connect "FP-A" "alice@example.com" "laptop" "terminal7"))
    = (Some p, e) /\
    pd p = Some {| user := EmptyString; fingerprint := EmptyString;
                   name := EmptyString; kind := EmptyString |}.
Proof.
  refine (proj2 (newPeer_ignores_HGETALL_failure
            {| Do_EXISTS := Do_EXISTS redis0;
               Do_HGETALL := fun _ => Fail "connection reset";
               ScanStruct := ScanStruct redis0 |}
            (query (connect "FP-A" "alice@example.com" "laptop" "terminal7"))
            "connection reset" _) _ _ _ _).
  - reflexivity.
  - reflexivity.
  - by vm_compute.
  - reflexivity.
Defined.

(** ** The read task, further *)

Section ReadTaskMore.

Implicit Types (p : Peer) (d : PeerDoc) (m f : gmap string string)
  (input rest : list (Z * Incoming)) (message : option (gmap string string)).

Lemma requests_app tr tr' : requests (tr ++ tr') = requests tr ++ requests tr'.
Proof. apply omap_app. Qed.

(** What a successful [ReadJSON] has read. *)
Lemma ReadJSON_readable deadline message input x deadline' rest :
  ReadJSON deadline message input = (Decoded x, deadline', rest) ->
  (x = None /\ readable input = [] /\ Exists is_null input) \/
  (exists f, x = decode_into message f /\ readable input = f :: readable rest).
Proof.
  revert deadline. induction input as [|[t i] input IH]; intros deadline; simpl.
  - by intros [=].
  - destruct (deadline <? t)%Z; [by intros [=]|].
    destruct i as [|size payload|code]; [| |by intros [=]].
    + intros H. destruct (IH _ H) as [(-> & Hr & Hn)|(f & -> & Hr)].
      * left. split; [done|]. split; [done | by apply Exists_cons_tl].
      * right. by exists f.
    + destruct (maxMessageSize <? size)%Z; [by intros [=]|].
      destruct payload as [| |f]; intros [= <- <- <-].
      * left. split; [done|]. split; [done|]. by apply Exists_cons_hd.
      * right. by exists f.
Qed.

Lemma ReadJSON_rest deadline message input r deadline' rest :
  ReadJSON deadline message input = (r, deadline', rest) ->
  exists skipped, input = skipped ++ rest.
Proof.
  revert deadline. induction input as [|[t i] input IH]; intros deadline; simpl.
  - intros [= <- <- <-]. by exists [].
  - destruct (deadline <? t)%Z; [intros [= <- <- <-]; by exists [(t, i)]|].
    destruct i as [|size payload|code].
    + intros H. destruct (IH _ H) as [sk ->]. by exists ((t, Pong) :: sk).
    + destruct (maxMessageSize <? size)%Z;
        [intros [= <- <- <-]; by eexists [_]|].
      destruct payload; intros [= <- <- <-]; by eexists [_].
    + intros [= <- <- <-]. by eexists [_].
Qed.

Lemma forwarded_carries d m fs :
  Forall2 (carries d) (forwarded d m fs) fs.
Proof.
  revert m. induction fs as [|f fs IH]; intros m; simpl; constructor; [|done].
  unfold carries, inject. split; [|split].
  - by rewrite lookup_insert_ne, lookup_insert_eq.
  - by rewrite lookup_insert_eq.
  - intros k v Hf Hn Hk. rewrite !lookup_insert_ne by done.
    by apply lookup_union_Some_l.
Qed.

Lemma readLoop_forwards fuel p d deadline message input :
  pd p = Some d ->
  requests (readLoop fuel p deadline message input).1
  `prefix_of` forwarded d (default ∅ message) (readable input).
Proof.
  intros Hpd. revert deadline message input.
  induction fuel as [|fuel IH]; intros deadline message input; simpl.
  { apply prefix_nil. }
  destruct (ReadJSON deadline message input) as [[r deadline'] rest] eqn:HR.
  destruct r as [x|e].
  - rewrite Hpd.
    destruct (ReadJSON_readable _ _ _ _ _ _ HR) as [(-> & Hr & _)|(f & -> & Hr)].
    { apply prefix_nil. }
    rewrite Hr. simpl.
    assert (decode_into message f = Some (f ∪ default ∅ message)) as ->.
    { destruct message; simpl; [done|]. by rewrite (right_id ∅ (∪)). }
    specialize (IH deadline' (Some (inject d (f ∪ default ∅ message))) rest).
    unfold inject in *.
    destruct (readLoop fuel p deadline' _ rest) as [tr ex]. simpl in *.
    by apply prefix_cons.
  - simpl. destruct (IsUnexpectedCloseError e _); apply prefix_nil.
Qed.

Lemma readLoop_safe fuel p d deadline message input :
  pd p = Some d -> ~ Exists is_null input -> (length input < fuel)%nat ->
  exists e, (readLoop fuel p deadline message input).2 = Broke e.
Proof.
  intros Hpd. revert deadline message input.
  induction fuel as [|fuel IH]; intros deadline message input Hnull Hlen; [lia|].
  simpl.
  destruct (ReadJSON deadline message input) as [[r deadline'] rest] eqn:HR.
  destruct r as [x|e]; [|by eexists].
  rewrite Hpd.
  destruct (ReadJSON_readable _ _ _ _ _ _ HR) as [(_ & _ & Hn)|(f & -> & _)];
    [done|].
  destruct (ReadJSON_rest _ _ _ _ _ _ HR) as [sk ->].
  apply ReadJSON_shorter in HR as [_ HR]. specialize (HR _ eq_refl).
  destruct message as [old|]; simpl.
  - specialize (IH deadline'
      (Some (<["source_name":=name d]> (<["source_fp":=fingerprint d]> (f ∪ old))))
      rest).
    destruct (readLoop fuel p deadline' _ rest) as [tr ex]. simpl in *.
    apply IH; [|lia]. intros H. apply Hnull, Exists_app. by right.
  - specialize (IH deadline'
      (Some (<["source_name":=name d]> (<["source_fp":=fingerprint d]> f))) rest).
    destruct (readLoop fuel p deadline' _ rest) as [tr ex]. simpl in *.
    apply IH; [|lia]. intros H. apply Hnull, Exists_app. by right.
Qed.

(** Without a pong the deadline stays where [readPump] put it, and only
    what arrives by then is read. *)
Lemma readLoop_without_pong fuel p deadline message input :
  ~ Exists is_pong input ->
  (length (requests (readLoop fuel p deadline message input).1)
   <= length (filter (fun a => Is_true (arrives_by deadline a)) input))%nat.
Proof.
  revert message input.
  induction fuel as [|fuel IH]; intros message input Hpong; simpl; [lia|].
  destruct input as [|[t i] input]; simpl; [lia|].
  rewrite filter_cons. unfold arrives_by at 1. simpl.
  destruct (Z.ltb_spec deadline t) as [Hlt|Hle]; simpl.
  { destruct (decide _) as [Hd|_]; simpl; lia. }
  destruct (decide _) as [_|Hd];
    [|destruct Hd; apply Is_true_true; by apply Z.leb_le].
  destruct i as [|size payload|code]; simpl.
  - destruct Hpong. by apply Exists_cons_hd.
  - assert (~ Exists is_pong input) as Hpong'.
    { intros H. apply Hpong. by apply Exists_cons_tl. }
    destruct (maxMessageSize <? size)%Z; simpl.
    { lia. }
    destruct payload as [| |f]; simpl.
    + lia.
    + destruct (pd p); simpl; lia.
    + destruct (pd p) as [d|]; simpl; [|lia].
      specialize (IH (Some (<["source_name":=name d]>
                              (<["source_fp":=fingerprint d]>
                                 (default f ((f ∪.) <$> message))))) input Hpong').
      destruct message as [old|]; simpl in *;
        destruct (readLoop fuel p deadline _ input) as [tr ex]; simpl in *; lia.
  - destruct (negb _); simpl; lia.
Qed.

End ReadTaskMore.

(** X5.  However the loop of the read task is left, on a read error or
    on a panic, and whatever has arrived, the task of an upgraded session
    comes to its end with one unregistration sent to the hub and then the
    close of the socket, neither of which occurs before. *)
Theorem readPump_always_unregisters (p : Peer) (now : Z)
    (input : list (Z * Incoming)) :
  ws p = true ->
  (exists pre, (readPump p now input).1 = pre ++ [HubUnregister; WsClose] /\
               (HubUnregister ∉ pre) /\ (WsClose ∉ pre)) /\
  ((exists e, (readPump p now input).2 = Broke e) \/
   (exists why, (readPump p now input).2 = Panicked why)).
Proof.
  intros Hws. unfold readPump. rewrite Hws.
  pose proof (readLoop_events (S (length input)) p (now + pongWait) None input)
    as Hev.
  pose proof (readLoop_fuel (S (length input)) p (now + pongWait) None input
                ltac:(lia)) as Hfuel.
  pose proof (readLoop_not_blocked (S (length input)) p (now + pongWait) None
                input) as [Hb Hr].
  destruct (readLoop _ p _ None input) as [tr ex]. simpl in *. split.
  - exists tr. split; [done|]. rewrite Forall_forall in Hev.
    split; intros Hin; apply (Hev _ Hin).
  - destruct ex; try done; [left | right]; by eexists.
Qed.

Lemma readPump_always_unregisters_witness :
  exists pre, (readPump stranger 0 [(1%Z, Text 40 (Object hello))]).1
              = pre ++ [HubUnregister; WsClose].
Proof.
  destruct (readPump_always_unregisters stranger 0
              [(1%Z, Text 40 (Object hello))] eq_refl)
    as [(pre & Hpre & _) _].
  by exists pre.
Defined.

(** X6.  With a persisted record, and as long as the remote end does not
    send the frame [null], the read task never panics: it leaves its loop
    on a read error. *)
Theorem readPump_safe_with_record (p : Peer) (d : PeerDoc) (now : Z)
    (input : list (Z * Incoming)) :
  ws p = true -> pd p = Some d -> ~ Exists is_null input ->
  exists e, (readPump p now input).2 = Broke e.
Proof.
  intros Hws Hpd Hnull. unfold readPump. rewrite Hws.
  destruct (readLoop_safe (S (length input)) p d (now + pongWait) None input
              Hpd Hnull ltac:(lia)) as [e He].
  destruct (readLoop _ p _ None input) as [tr ex]. simpl in *. by exists e.
Qed.

Lemma readPump_safe_with_record_witness :
  exists e, (readPump peer0 0 [(1%Z, Text 40 (Object hello)); (2%Z, Pong)]).2
            = Broke e.
Proof.
  apply (readPump_safe_with_record peer0 doc0 0
           [(1%Z, Text 40 (Object hello)); (2%Z, Pong)]); try reflexivity.
  intros H. apply Exists_cons in H as [H|H]; [exact H|].
  apply Exists_cons in H as [H|H]; [exact H|].
  by apply Exists_nil in H.
Defined.

(** X7.  The requests the read task forwards are, in order, those of a
    first part of the objects that arrive before the first oversize or
    undecodable frame, [null] or close: each is the frame decoded into
    the map of the request before it, with the two source fields set, so
    that it carries every other field of its frame. *)
Theorem readPump_forwards_in_order (p : Peer) (d : PeerDoc) (now : Z)
    (input : list (Z * Incoming)) :
  ws p = true -> pd p = Some d ->
  requests (readPump p now input).1 `prefix_of` forwarded d ∅ (readable input) /\
  exists n, Forall2 (carries d) (requests (readPump p now input).1)
                    (take n (readable input)).
Proof.
  intros Hws Hpd. unfold readPump. rewrite Hws.
  pose proof (readLoop_forwards (S (length input)) p d (now + pongWait) None input
                Hpd) as Hfw.
  destruct (readLoop _ p _ None input) as [tr ex]. simpl in *.
  rewrite requests_app. simpl. rewrite app_nil_r.
  split; [done|].
  destruct Hfw as [k Hk]. exists (length (requests tr)).
  pose proof (forwarded_carries d ∅ (readable input)) as Hc.
  rewrite Hk in Hc.
  apply Forall2_app_inv_l in Hc as (fs1 & fs2 & H1 & _ & Heq).
  rewrite Heq, (Forall2_length _ _ _ H1), take_app_length. done.
Qed.

Lemma readPump_forwards_in_order_witness :
  requests (readPump peer0 0 [(1%Z, Text 40 (Object hello));
                              (2%Z, Text 600 (Object forged))]).1
  `prefix_of` [inject doc0 hello].
Proof.
  refine (proj1 (readPump_forwards_in_order peer0 doc0 0
            [(1%Z, Text 40 (Object hello)); (2%Z, Text 600 (Object forged))]
            eq_refl eq_refl)).
Defined.

(** X8.  The read deadline moves on pongs only: when no pong arrives, the
    task forwards no more requests than items have arrived within
    [pongWait] of its start, however many frames follow. *)
Theorem readPump_without_pong (p : Peer) (now : Z) (input : list (Z * Incoming)) :
  ~ Exists is_pong input ->
  (length (requests (readPump p now input).1)
   <= length (filter (fun a => Is_true (arrives_by (now + pongWait) a)) input))%nat.
Proof.
  intros Hpong. unfold readPump. destruct (ws p); [|simpl; lia].
  pose proof (readLoop_without_pong (S (length input)) p (now + pongWait) None
                input Hpong) as H.
  destruct (readLoop _ p _ None input) as [tr ex]. simpl in *.
  rewrite requests_app. simpl. by rewrite app_nil_r.
Qed.

Lemma readPump_without_pong_witness :
  (length (requests (readPump peer0 0
             [(1%Z, Text 40 (Object hello));
              ((pongWait + 1)%Z, Text 40 (Object hello))]).1) <= 1)%nat.
Proof.
  refine (readPump_without_pong peer0 0
            [(1%Z, Text 40 (Object hello));
             ((pongWait + 1)%Z, Text 40 (Object hello))] _).
  intros H. apply Exists_cons in H as [H|H]; [exact H|].
  apply Exists_cons in H as [H|H]; [exact H|].
  by apply Exists_nil in H.
Defined.

(** ** The write task, further *)

Section WriteTaskMore.

Implicit Types (p : Peer) (sel : list Select).

Lemma frames_app tr tr' : frames (tr ++ tr') = frames tr ++ frames tr'.
Proof. apply omap_app. Qed.

Lemma guarded_app tr tr' :
  guarded tr = true -> guarded tr' = true -> guarded (tr ++ tr') = true.
Proof.
  revert tr'. induction tr as [tr IH] using (induction_ltof1 _ (@length _)).
  unfold ltof in IH. intros tr' H H'.
  destruct tr as [|e tr]; [done|].
  destruct e; try done; simpl in *; try (apply IH; [lia|done..]).
  destruct tr as [|e' tr]; [done|].
  destruct e'; try done; simpl in *; apply IH; simpl; (lia || done).
Qed.

Lemma writeLoop_frames sel :
  frames (writeLoop sel).1 = WriteJSON <$> written sel.
Proof.
  induction sel as [|[m w| |w] sel IH]; simpl; [done| |done|].
  - destruct (writeLoop sel) as [tr ex]. destruct w; simpl in *; by rewrite IH.
  - destruct w; [|done]. by destruct (writeLoop sel).
Qed.

Lemma writeLoop_guarded sel : guarded (writeLoop sel).1 = true.
Proof.
  induction sel as [|[m w| |w] sel IH]; simpl; [done| |done|].
  - destruct (writeLoop sel) as [tr ex]. by destruct w.
  - destruct w; [|done]. by destruct (writeLoop sel).
Qed.

Lemma writeLoop_returns_iff sel :
  (writeLoop sel).2 = Returned
  <-> Exists (fun s => s = RecvClosed \/ s = Tick false) sel.
Proof.
  induction sel as [|[m w| |w] sel IH]; simpl.
  - split; [done | by intros ?%Exists_nil].
  - destruct (writeLoop sel) as [tr ex]. simpl in *.
    assert ((if w then (SetWriteDeadline :: WsText (WriteJSON m) :: tr, ex)
             else (SetWriteDeadline :: WsWriteFailed :: LogWarn :: tr, ex)).2
            = ex) as -> by by destruct w.
    rewrite IH, Exists_cons. split; [by right|]. by intros [[[=]|[=]]|].
  - split; [intros _; apply Exists_cons_hd; by left | done].
  - destruct w; simpl.
    + destruct (writeLoop sel) as [tr ex]. simpl in *.
      rewrite IH, Exists_cons. split; [by right|]. by intros [[[=]|[=]]|].
    + split; [intros _; apply Exists_cons_hd; by right | done].
Qed.

End WriteTaskMore.

(** X9.  The JSON frames the write task puts on the wire are, in order,
    the messages it took from the queue and could write, up to the
    selection that ends it; a message whose write fails is not sent
    again. *)
Theorem writePump_frames_in_order (p : Peer) (sel : list Select) :
  ws p = true ->
  frames (writePump p sel).1 = WriteJSON <$> written sel.
Proof.
  intros Hws. unfold writePump. rewrite Hws.
  pose proof (writeLoop_frames sel) as H.
  destruct (writeLoop sel) as [tr ex]. simpl in *.
  destruct (finished ex); simpl; [|done].
  by rewrite frames_app, app_nil_r.
Qed.

Lemma writePump_frames_in_order_witness :
  frames (writePump peer0 [Recv (MRequest hello) true; Tick true;
                           Recv (MRequest forged) true; Recv notice false;
                           Tick false; Recv notice true]).1
  = [Marshal_map hello; Marshal_map forged].
Proof.
  apply (writePump_frames_in_order peer0
           [Recv (MRequest hello) true; Tick true;
            Recv (MRequest forged) true; Recv notice false; Tick false;
            Recv notice true]).
  reflexivity.
Defined.

(** X10.  The write task of an upgraded session comes to its end exactly
    when the hub has closed the queue or a ping could not be written;
    until then it waits in its [select], and when it ends it stops the
    ticker and closes the socket as its last two effects. *)
Theorem writePump_ends_iff (p : Peer) (sel : list Select) :
  ws p = true ->
  ((writePump p sel).2 = Returned
   <-> Exists (fun s => s = RecvClosed \/ s = Tick false) sel) /\
  ((writePump p sel).2 = Blocked <-> Forall goes_on sel) /\
  ((writePump p sel).2 = Returned ->
   exists pre, (writePump p sel).1 = pre ++ [TickerStop; WsClose] /\
               Forall write_event pre) /\
  ((writePump p sel).2 = Blocked -> Forall write_event (writePump p sel).1).
Proof.
  intros Hws. unfold writePump. rewrite Hws.
  pose proof (writeLoop_returns_iff sel) as Hret.
  pose proof (writeLoop_exit sel) as Hex.
  pose proof (writeLoop_events sel) as Hev.
  destruct (writeLoop sel) as [tr ex]. simpl in *.
  assert (Forall goes_on sel
          <-> ~ Exists (fun s => s = RecvClosed \/ s = Tick false) sel) as Hgo.
  { rewrite <- Forall_Exists_neg. apply Forall_iff. intros s.
    destruct s as [m w| |w]; simpl.
    - split; [intros _ [[=]|[=]] | done].
    - split; [done | intros H; apply H; by left].
    - destruct w; simpl.
      + split; [intros _ [[=]|[=]] | done].
      + split; [done | intros H; apply H; by right]. }
  split; [done|]. split; [|split].
  - rewrite Hgo, <- Hret. destruct Hex as [->| ->]; by split.
  - intros ->. simpl. by exists tr.
  - by intros ->.
Qed.

Lemma writePump_ends_iff_witness :
  (writePump peer0 [Recv notice true; Tick true; RecvClosed]).2 = Returned.
Proof.
  refine (proj2 (proj1 (writePump_ends_iff peer0
            [Recv notice true; Tick true; RecvClosed] eq_refl)) _).
  apply Exists_cons_tl, Exists_cons_tl, Exists_cons_hd. by left.
Defined.

(** X11.  Every write of the write task on the socket, be it a message,
    a ping or the close message, and whether it succeeds or not, comes
    right after a write deadline was set. *)
Theorem writePump_writes_under_deadline (p : Peer) (sel : list Select) :
  guarded (writePump p sel).1 = true.
Proof.
  unfold writePump. destruct (ws p).
  - pose proof (writeLoop_guarded sel) as H.
    destruct (writeLoop sel) as [tr ex]. simpl in *.
    destruct (finished ex); [|done]. by apply guarded_app.
  - by destruct sel.
Qed.

(** ** The queue of a session *)

(** X12.  Status pushes on the queue of a peer that nobody drains go
    through as long as there is room, and are queued in order behind what
    is there; the push that finds the queue full does not return.  The
    queue [newPeer] makes has room for eight. *)
Theorem push_all_capacity (p : Peer) (l : list (Z * error)) :
  closed (send p) = false ->
  (length (buf (send p)) <= cap (send p))%nat ->
  (is_Some (push_all p l)
   <-> (length (buf (send p)) + length l <= cap (send p))%nat) /\
  (forall p', push_all p l = Some p' ->
     buf (send p') = buf (send p) ++ (status_of <$> l) /\
     cap (send p') = cap (send p) /\ closed (send p') = false /\
     pd p' = pd p /\ authenticated p' = authenticated p /\ ws p' = ws p).
Proof.
  revert p. induction l as [|[code err] l IH]; intros p Hopen Hwf; simpl.
  - split; [split; [intros _; lia | by eexists]|].
    intros p' [= <-]. by rewrite app_nil_r.
  - unfold sendStatus, chan_send. rewrite Hopen.
    destruct (decide _) as [Hroom|Hfull].
    + set (p1 := {| ws := ws p; send := _; authenticated := _; pd := _ |}).
      destruct (IH p1) as [Hiff Hbuf]; [done | |].
      { simpl. rewrite length_app. simpl. lia. }
      simpl in *. rewrite length_app in Hiff. simpl in Hiff. split.
      * rewrite Hiff. lia.
      * intros p' Hp'. destruct (Hbuf p' Hp') as (-> & -> & -> & -> & -> & ->).
        by rewrite <- app_assoc.
    + split; [|by intros ? [=]].
      split; [by intros [? [=]] | intros; lia].
Qed.

Lemma push_all_capacity_witness :
  is_Some (push_all stranger (replicate 8 (401%Z, PeerChanged))) /\
  ~ is_Some (push_all stranger (replicate 9 (401%Z, PeerChanged))).
Proof.
  assert (length (buf (send stranger)) <= cap (send stranger))%nat as Hwf
    by (vm_compute; lia).
  split.
  - apply (proj1 (push_all_capacity stranger (replicate 8 (401%Z, PeerChanged))
                    eq_refl Hwf)).
    vm_compute. lia.
  - intros H.
    apply (proj1 (push_all_capacity stranger (replicate 9 (401%Z, PeerChanged))
                    eq_refl Hwf)) in H.
    vm_compute in H. lia.
Defined.

(** ** The verification handler, further *)

Section VerifyMore.

Implicit Types (w : Main.World) (r : Main.Request) (p : Main.Peer).

Lemma reply_for_world w p : (Main.reply_for w p).1 = w.
Proof.
  unfold Main.reply_for. destruct (Main.Verified p); [|done].
  by destruct (Main.GetUsersPeers _ _).
Qed.

Lemma sendAuthEmail_world w email :
  Main.db (Main.sendAuthEmail w email) = Main.db w /\
  Main.PB_HOME_URL (Main.sendAuthEmail w email) = Main.PB_HOME_URL w /\
  Main.smtp_up (Main.sendAuthEmail w email) = Main.smtp_up w.
Proof.
  unfold Main.sendAuthEmail. destruct (negb _); [done|].
  by destruct (Main.createTempURL w email "pb").
Qed.

(** What [rename_and_notify] does to the world. *)
Lemma rename_and_notify_world w p name email :
  Main.db (Main.rename_and_notify w p name email).1
  = (if decide (Main.Name p ≠ name)
     then Main.with_peers (Main.db w)
            (alter (renamed name) (Main.FP p) (Main.peers (Main.db w)))
     else Main.db w) /\
  Main.outbox (Main.rename_and_notify w p name email).1
  = (if Main.Verified p then Main.outbox w
     else Main.outbox (Main.sendAuthEmail w email)).
Proof.
  unfold Main.rename_and_notify, Main.setName, Main.reply_for.
  destruct (decide (Main.Name p ≠ name)); simpl;
    destruct (Main.Verified p); simpl;
    repeat match goal with
           | |- context [Main.GetUsersPeers ?d ?u] =>
             destruct (Main.GetUsersPeers d u)
           end; simpl; try done;
    (split; [apply sendAuthEmail_world|]); try done.
  unfold Main.sendAuthEmail. simpl. destruct (negb _); [done|].
  unfold Main.createTempURL. simpl.
  by destruct (Main.CreateToken _ _).
Qed.

(** What [serveVerify] does to the store. *)
Lemma serveVerify_store w r :
  let fp := Main.field (Main.Body r) "fp" in
  let email := Main.field (Main.Body r) "email" in
  let name := Main.field (Main.Body r) "name" in
  let ps := Main.peers (Main.db w) in
  let d' := Main.db (Main.serveVerify w r).1 in
  (d' = Main.db w \/
   (ps !! fp = None /\ fp <> EmptyString /\ email <> EmptyString /\
    d' = Main.with_peers (Main.db w)
           (<[fp := Main.NewPeer fp name email
                      (Main.field (Main.Body r) "kind")]> ps)) \/
   (exists p, ps !! fp = Some p /\ Main.User p = email /\
              email <> EmptyString /\
              d' = Main.with_peers (Main.db w)
                     (alter (renamed name) (Main.FP p) ps))).
Proof.
  simpl. unfold Main.serveVerify.
  destruct (decide (Main.Body r = None)); [by left|].
  destruct (decide (_ = EmptyString)) as [|Hfp]; [by left|].
  destruct (decide (_ = EmptyString)) as [|Hemail]; [by left|].
  destruct (decide (Main.Method r = "POST")); [|by left].
  unfold Main.PeerExists. destruct (Main.fails _ _); [by left|].
  destruct (Main.peers (Main.db w) !! _) as [p|] eqn:Hp; simpl.
  - unfold Main.GetPeer. destruct (Main.fails _ _); [by left|].
    rewrite Hp.
    destruct (decide (Main.User p = EmptyString)).
    { unfold Main.AddPeer. destruct (Main.fails _ _); [by left|].
      simpl. rewrite Hp. by left. }
    destruct (decide (Main.User p ≠ _)) as [|Hu]; [by left|].
    apply dec_stable in Hu.
    destruct (rename_and_notify_world w p
                (Main.field (Main.Body r) "name")
                (Main.field (Main.Body r) "email")) as [-> _].
    destruct (decide (Main.Name p ≠ _)); [|by left].
    right. right. by exists p.
  - unfold Main.AddPeer. destruct (Main.fails _ _); [by left|].
    simpl. rewrite Hp. simpl.
    destruct (sendAuthEmail_world
                (Main.with_db w
                   (Main.with_peers (Main.db w)
                      (<[Main.field (Main.Body r) "fp" :=
                           Main.NewPeer (Main.field (Main.Body r) "fp")
                             (Main.field (Main.Body r) "name")
                             (Main.field (Main.Body r) "email")
                             (Main.field (Main.Body r) "kind")]>
                         (Main.peers (Main.db w)))))
                (Main.field (Main.Body r) "email")) as [-> _].
    right. left. done.
Qed.

End VerifyMore.

(** X13.  [serveVerify] checks the body before the method: a body that
    is not JSON, or that lacks the fingerprint or the email, is answered
    with 400 whatever the method, and a request with both that is not a
    POST gets an empty answer; none of these changes the world. *)
Theorem serveVerify_rejects_bad_input (w : Main.World) (r : Main.Request) :
  (Main.Body r = None \/ Main.field (Main.Body r) "fp" = EmptyString \/
   Main.field (Main.Body r) "email" = EmptyString ->
   (Main.serveVerify w r).1 = w /\
   Main.status (Main.serveVerify w r).2 = 400%Z) /\
  (Main.Body r <> None -> Main.field (Main.Body r) "fp" <> EmptyString ->
   Main.field (Main.Body r) "email" <> EmptyString ->
   Main.Method r <> "POST" ->
   Main.serveVerify w r
   = (w, {| Main.status := 200; Main.body := Main.NoBody |})).
Proof.
  unfold Main.serveVerify. split.
  - intros H.
    destruct (decide (Main.Body r = None)); [done|].
    destruct (decide (Main.field (Main.Body r) "fp" = EmptyString)); [done|].
    destruct (decide (Main.field (Main.Body r) "email" = EmptyString)); [done|].
    by destruct H as [?|[?|?]].
  - intros H1 H2 H3 H4.
    destruct (decide (Main.Body r = None)); [done|].
    destruct (decide (Main.field (Main.Body r) "fp" = EmptyString)); [done|].
    destruct (decide (Main.field (Main.Body r) "email" = EmptyString)); [done|].
    by destruct (decide (Main.Method r = "POST")).
Qed.

Lemma serveVerify_rejects_bad_input_witness :
  (Main.serveVerify world0 {| Main.Method := "GET"; Main.Body := None |}).1
  = world0 /\
  Main.status
    (Main.serveVerify world0 {| Main.Method := "GET"; Main.Body := None |}).2
  = 400%Z.
Proof.
  refine (proj1 (serveVerify_rejects_bad_input world0
            {| Main.Method := "GET"; Main.Body := None |}) _).
  by left.
Defined.

(** X14.  A store that keeps every identity under its own fingerprint
    still does after [serveVerify], whatever the request and whichever
    store operations fail. *)
Theorem serveVerify_keeps_store_keyed (w : Main.World) (r : Main.Request) :
  keyed (Main.peers (Main.db w)) ->
  keyed (Main.peers (Main.db (Main.serveVerify w r).1)).
Proof.
  intros Hk.
  destruct (serveVerify_store w r) as [->|[(Hn & _ & _ & ->)|(p & Hp & _ & _ & ->)]];
    [done| |]; simpl; intros k q.
  - destruct (decide (Main.field (Main.Body r) "fp" = k)) as [<-|Hne].
    + rewrite lookup_insert_eq. by intros [= <-].
    + rewrite lookup_insert_ne by done. apply Hk.
  - rewrite (Hk _ _ Hp).
    destruct (decide (Main.field (Main.Body r) "fp" = k)) as [<-|Hne].
    + rewrite lookup_alter_eq, Hp. intros [= <-]. simpl. by apply (Hk _ _ Hp).
    + rewrite lookup_alter_ne by done. apply Hk.
Qed.

Lemma serveVerify_keeps_store_keyed_witness :
  keyed (Main.peers (Main.db (Main.serveVerify world0
           (verify "FP-N" "carol@example.com" "phone" "t7")).1)).
Proof.
  apply (serveVerify_keeps_store_keyed world0
           (verify "FP-N" "carol@example.com" "phone" "t7")).
  intros k p. unfold world0, db0. simpl.
  destruct (decide (k = "FP-A")) as [->|Hne].
  - rewrite lookup_singleton_eq. by intros [= <-].
  - rewrite lookup_singleton_ne by done. by intros [=].
Defined.

(** X15.  [serveVerify] never takes away an identity that has an owner
    and never touches its owner, its kind or its verified flag; its name
    changes only to the name of a request that comes with the fingerprint
    and the email of its owner. *)
Theorem serveVerify_keeps_identities (w : Main.World) (r : Main.Request)
    (k : string) (p : Main.Peer) :
  keyed (Main.peers (Main.db w)) ->
  Main.peers (Main.db w) !! k = Some p ->
  Main.User p <> EmptyString ->
  exists p', Main.peers (Main.db (Main.serveVerify w r).1) !! k = Some p' /\
             Main.FP p' = Main.FP p /\ Main.User p' = Main.User p /\
             Main.Kind p' = Main.Kind p /\ Main.Verified p' = Main.Verified p /\
             (Main.Name p' = Main.Name p \/
              Main.Name p' = Main.field (Main.Body r) "name" /\
              k = Main.field (Main.Body r) "fp" /\
              Main.User p = Main.field (Main.Body r) "email").
Proof.
  intros Hk Hp _.
  destruct (serveVerify_store w r) as [->|[(Hn & _ & _ & ->)|(q & Hq & Hu & _ & ->)]];
    simpl.
  - exists p. repeat split; try done. by left.
  - exists p. rewrite lookup_insert_ne; [repeat split; try done; by left|].
    intros <-. by rewrite Hn in Hp.
  - rewrite (Hk _ _ Hq).
    destruct (decide (Main.field (Main.Body r) "fp" = k)) as [<-|Hne].
    + rewrite lookup_alter_eq, Hp. simpl. eexists. split; [done|].
      simpl. repeat split; try done. right.
      rewrite Hq in Hp. injection Hp as <-. done.
    + rewrite lookup_alter_ne by done. exists p.
      repeat split; try done. by left.
Qed.

Lemma serveVerify_keeps_identities_witness :
  exists p', Main.peers (Main.db (Main.serveVerify world0
               (verify "FP-A" "mallory@example.com" "mine" "t7")).1) !! "FP-A"
             = Some p' /\ Main.User p' = "alice@example.com".
Proof.
  destruct (serveVerify_keeps_identities world0
              (verify "FP-A" "mallory@example.com" "mine" "t7") "FP-A"
              (Main.NewPeer "FP-A" "laptop" "alice@example.com" "terminal7"))
    as (p' & Hp' & _ & Hu & _).
  - intros k p. unfold world0, db0. simpl.
    destruct (decide (k = "FP-A")) as [->|Hne].
    + rewrite lookup_singleton_eq. by intros [= <-].
    + rewrite lookup_singleton_ne by done. by intros [=].
  - reflexivity.
  - discriminate.
  - exists p'. split; [exact Hp' | exact Hu].
Defined.

(** X16.  The owner of a verified fingerprint who posts its claim gets
    the list of the identities of that user, all of them and no other,
    with the name of this one brought up to date; no notification is
    entered. *)
Theorem serveVerify_lists_peers_of_verified (w : Main.World) (r : Main.Request)
    (p : Main.Peer) :
  Main.Method r = "POST" -> Main.Body r <> None ->
  Main.field (Main.Body r) "fp" <> EmptyString ->
  Main.field (Main.Body r) "email" <> EmptyString ->
  Main.failing (Main.db w) = [] ->
  Main.peers (Main.db w) !! Main.field (Main.Body r) "fp" = Some p ->
  Main.FP p = Main.field (Main.Body r) "fp" ->
  Main.Verified p = true ->
  Main.User p = Main.field (Main.Body r) "email" ->
  Main.outbox (Main.serveVerify w r).1 = Main.outbox w /\
  Main.Name <$> (Main.peers (Main.db (Main.serveVerify w r).1)
                   !! Main.field (Main.Body r) "fp")
  = Some (Main.field (Main.Body r) "name") /\
  exists ps,
    (Main.serveVerify w r).2
    = {| Main.status := 200; Main.body := Main.JsonPeers ps |} /\
    forall q, q ∈ ps <->
              Main.User q = Main.field (Main.Body r) "email" /\
              exists k, Main.peers (Main.db (Main.serveVerify w r).1) !! k = Some q.
Proof.
  intros Hm Hbody Hfp Hemail Hok Hp Hkey Hver Huser.
  unfold Main.serveVerify.
  destruct (decide (Main.Body r = None)) as [|_]; [done|].
  destruct (decide (Main.field (Main.Body r) "fp" = EmptyString)) as [|_]; [done|].
  destruct (decide (Main.field (Main.Body r) "email" = EmptyString)) as [|_];
    [done|].
  destruct (decide (Main.Method r = "POST")) as [_|]; [|done].
  rewrite (PeerExists_ok w _ Hok), Hp. simpl.
  rewrite (GetPeer_ok w _ p Hok Hp).
  destruct (decide (Main.User p = EmptyString)) as [He|_].
  { rewrite Huser in He. done. }
  destruct (decide (Main.User p ≠ _)) as [|_]; [done|].
  assert (forall d : Main.DBType, Main.failing d = [] ->
            Main.GetUsersPeers d (Main.User p)
            = Ok (filter (fun q => Main.User q = Main.User p)
                         (map_to_list (Main.peers d)).*2)) as Hget.
  { intros d Hd. unfold Main.GetUsersPeers, Main.fails. by rewrite Hd. }
  assert (forall (m : gmap string Main.Peer) q,
            q ∈ filter (fun q => Main.User q = Main.User p) (map_to_list m).*2
            <-> Main.User q = Main.field (Main.Body r) "email" /\
                exists k, m !! k = Some q) as Hin.
  { intros m q. rewrite list_elem_of_filter, list_elem_of_fmap, Huser.
    apply and_iff_compat_l. split.
    - intros ([k q'] & -> & Hkq). exists k. by apply elem_of_map_to_list.
    - intros [k Hkq]. exists (k, q). split; [done|].
      by apply elem_of_map_to_list. }
  unfold Main.rename_and_notify, Main.setName, Main.reply_for.
  destruct (decide (Main.Name p ≠ _)) as [Hn|Hn]; simpl; rewrite Hver; simpl.
  - rewrite Hget by done. simpl. split; [done|]. split.
    + by rewrite Hkey, lookup_alter_eq, Hp.
    + eexists. split; [done|]. apply Hin.
  - rewrite Hget by done. simpl. split; [done|]. split.
    + rewrite Hp. simpl. f_equal. by apply dec_stable.
    + eexists. split; [done|]. apply Hin.
Qed.

Lemma serveVerify_lists_peers_of_verified_witness :
  Main.outbox
    (Main.serveVerify
       {| Main.db := Main.with_peers db0
            {[ "FP-A" := Pages.set_verified
                 (Main.NewPeer "FP-A" "laptop" "alice@example.com" "terminal7")
                 true ]};
          Main.PB_HOME_URL := EmptyString; Main.smtp_up := true;
          Main.outbox := [] |}
       (verify "FP-A" "alice@example.com" "desktop" "terminal7")).1 = [].
Proof.
  refine (proj1 (serveVerify_lists_peers_of_verified
            {| Main.db := Main.with_peers db0
                 {[ "FP-A" := Pages.set_verified
                      (Main.NewPeer "FP-A" "laptop" "alice@example.com" "terminal7")
                      true ]};
               Main.PB_HOME_URL := EmptyString; Main.smtp_up := true;
               Main.outbox := [] |}
            (verify "FP-A" "alice@example.com" "desktop" "terminal7")
            (Pages.set_verified
               (Main.NewPeer "FP-A" "laptop" "alice@example.com" "terminal7") true)
            _ _ _ _ _ _ _ _ _)).
  - reflexivity.
  - discriminate.
  - by vm_compute.
  - by vm_compute.
  - reflexivity.
  - reflexivity.
  - reflexivity.
  - reflexivity.
  - reflexivity.
Defined.

(** X17.  Every call of [sendAuthEmail] enters one notification for the
    address and leaves the store as it is.  The mail goes out exactly
    when the throttle lets the address through, the store makes a token
    and the mail server takes the message. *)
Theorem sendAuthEmail_outcome (w : Main.World) (email : string) :
  Main.db (Main.sendAuthEmail w email) = Main.db w /\
  exists dlv,
    Main.outbox (Main.sendAuthEmail w email)
    = Main.outbox w ++ [{| rcpt := email; delivery := dlv |}] /\
    (dlv = Throttled <-> email ∈ Main.throttled (Main.db w)) /\
    ((exists link, dlv = Sent link) <->
     (email ∉ Main.throttled (Main.db w)) /\
     (exists token, Main.CreateToken (Main.db w) email = Ok token) /\
     Main.smtp_up w = true).
Proof.
  split; [apply sendAuthEmail_world|].
  unfold Main.sendAuthEmail, Main.canSendEmail, Main.createTempURL.
  destruct (decide (email ∈ Main.throttled (Main.db w))) as [Hin|Hin].
  - rewrite bool_decide_eq_false_2 by (by intros H; apply H). simpl.
    exists Throttled. split; [done|]. split; [done|].
    split; [by intros [? [=]] | by intros [? _]].
  - rewrite bool_decide_eq_true_2 by done. simpl.
    destruct (Main.CreateToken (Main.db w) email) as [token|err]; simpl.
    + destruct (Main.smtp_up w); simpl; eexists; (split; [done|]).
      * split; [split; [by intros [=] | done]|].
        split; [intros _; split; [done|]; split; [by eexists | done]
               | by intros _; eexists].
      * split; [split; [by intros [=] | done]|].
        split; [by intros [? [=]] | by intros (_ & _ & [=])].
    + eexists. split; [done|].
      split; [split; [by intros [=] | done]|].
      split; [by intros [? [=]] | by intros (_ & [? [=]] & _)].
Qed.

(** X18.  A request to [serveVerify] enters at most one notification,
    for the email of the request, and only together with the answer that
    the fingerprint is not verified. *)
Theorem serveVerify_notifies_at_most_once (w : Main.World) (r : Main.Request) :
  Main.outbox (Main.serveVerify w r).1 = Main.outbox w \/
  (exists dlv,
     Main.outbox (Main.serveVerify w r).1
     = Main.outbox w ++ [{| rcpt := Main.field (Main.Body r) "email";
                            delivery := dlv |}]) /\
  (Main.serveVerify w r).2
  = {| Main.status := 200; Main.body := Main.JsonVerified false |}.
Proof.
  unfold Main.serveVerify.
  destruct (decide (Main.Body r = None)); [by left|].
  destruct (decide (_ = EmptyString)); [by left|].
  destruct (decide (_ = EmptyString)); [by left|].
  destruct (decide (Main.Method r = "POST")); [|by left].
  destruct (Main.PeerExists _ _) as [[]|]; [| |by left].
  - destruct (Main.GetPeer _ _) as [p|]; [|by left].
    assert (forall w0 q, Main.outbox w0 = Main.outbox w ->
              Main.outbox (Main.rename_and_notify w0 q
                             (Main.field (Main.Body r) "name")
                             (Main.field (Main.Body r) "email")).1
              = Main.outbox w \/
              (exists dlv,
                 Main.outbox (Main.rename_and_notify w0 q
                                (Main.field (Main.Body r) "name")
                                (Main.field (Main.Body r) "email")).1
                 = Main.outbox w ++ [{| rcpt := Main.field (Main.Body r) "email";
                                        delivery := dlv |}]) /\
              (Main.rename_and_notify w0 q
                 (Main.field (Main.Body r) "name")
                 (Main.field (Main.Body r) "email")).2
              = {| Main.status := 200; Main.body := Main.JsonVerified false |})
      as Hrn.
    { intros w0 q Hw0.
      destruct (rename_and_notify_world w0 q
                  (Main.field (Main.Body r) "name")
                  (Main.field (Main.Body r) "email")) as [_ Hout].
      rewrite Hout. destruct (Main.Verified q) eqn:Hv; [by left|]. right.
      destruct (sendAuthEmail_notifies w0 (Main.field (Main.Body r) "email"))
        as (_ & dlv & ->). rewrite Hw0. split; [by exists dlv|].
      unfold Main.rename_and_notify, Main.setName, Main.reply_for.
      destruct (decide _); simpl; by rewrite Hv. }
    destruct (decide (Main.User p = EmptyString)).
    + destruct (Main.AddPeer _ _) as [d|]; [|by left]. by apply Hrn.
    + destruct (decide (Main.User p ≠ _)); [by left|]. by apply Hrn.
  - destruct (Main.AddPeer _ _) as [d|]; [|by left]. right.
    unfold Main.reply_for. simpl.
    destruct (sendAuthEmail_notifies (Main.with_db w d)
                (Main.field (Main.Body r) "email")) as (_ & dlv & ->).
    split; [by exists dlv | done].
Qed.

(** ** The pages behind a token *)

Section Url.

Lemma hex_digits (c : ascii) :
  url.ishex (url.upperhex (nat_of_ascii c / 16)) = true /\
  url.ishex (url.upperhex (nat_of_ascii c mod 16)) = true /\
  ascii_of_nat (url.unhex (url.upperhex (nat_of_ascii c / 16)) * 16
                + url.unhex (url.upperhex (nat_of_ascii c mod 16))) = c /\
  Ascii.eqb (url.upperhex (nat_of_ascii c / 16)) "/" = false /\
  Ascii.eqb (url.upperhex (nat_of_ascii c mod 16)) "/" = false.
Proof. destruct c as [[] [] [] [] [] [] [] []]; by vm_compute. Qed.

Lemma unescaped_plain (c : ascii) :
  url.shouldEscape c = false ->
  Ascii.eqb c "%" = false /\ Ascii.eqb c "/" = false.
Proof. destruct c as [[] [] [] [] [] [] [] []]; by vm_compute. Qed.

Lemma IndexRune_cons_absent (a c : ascii) (s : string) :
  Ascii.eqb a c = false -> Pages.IndexRune s c = (-1)%Z ->
  Pages.IndexRune (String a s) c = (-1)%Z.
Proof. intros Ha Hs. simpl. by rewrite Ha, Hs. Qed.

Lemma IndexRune_bounds (s : string) (c : ascii) :
  (-1 <= Pages.IndexRune s c < Z.of_nat (String.length s))%Z.
Proof.
  induction s as [|a s IH]; simpl; [lia|].
  destruct (Ascii.eqb a c); [lia|].
  destruct (Z.ltb_spec (Pages.IndexRune s c) 0); lia.
Qed.

Lemma IndexRune_app (p rest : string) (c : ascii) :
  Pages.IndexRune p c = (-1)%Z ->
  Pages.IndexRune (p +:+ String c rest) c = Z.of_nat (String.length p).
Proof.
  induction p as [|a p IH]; simpl.
  - intros _. by rewrite Ascii.eqb_refl.
  - destruct (Ascii.eqb a c); [done|].
    pose proof (IndexRune_bounds p c).
    destruct (Z.ltb_spec (Pages.IndexRune p c) 0) as [Hlt|Hge]; [|lia].
    intros _. rewrite IH by lia.
    destruct (Z.ltb_spec (Z.of_nat (String.length p)) 0); lia.
Qed.

Lemma from_app (p rest : string) :
  Pages.from (String.length p) (p +:+ rest) = rest.
Proof. induction p as [|a p IH]; simpl; [by destruct rest | done]. Qed.

Lemma from_second_part (c d : ascii) (p rest : string) :
  Pages.from (S (S (String.length p))) (String c (p +:+ String d rest)) = rest.
Proof.
  change (Pages.from (S (String.length p)) (p +:+ String d rest) = rest).
  induction p as [|a p IH]; [by destruct rest | exact IH].
Qed.

End Url.

(** X19.  [PathUnescape] undoes [PathEscape] on every string of bytes,
    and an escaped string holds no slash. *)
Theorem PathEscape_round_trip (s : string) :
  url.PathUnescape (url.PathEscape s) = Ok s /\
  Pages.IndexRune (url.PathEscape s) "/" = (-1)%Z.
Proof.
  induction s as [|c s [IHu IHi]]; [done|].
  cbn [url.PathEscape].
  destruct (url.shouldEscape c) eqn:Hc.
  - destruct (hex_digits c) as (Hh & Hl & Hv & Hsh & Hsl).
    split.
    + cbn [url.PathUnescape].
      assert (Ascii.eqb "%" "%" = true) as -> by done.
      rewrite Hh, Hl. cbn [andb]. by rewrite IHu, Hv.
    + apply IndexRune_cons_absent; [done|].
      apply IndexRune_cons_absent; [done|].
      by apply IndexRune_cons_absent.
  - destruct (unescaped_plain c Hc) as [Hp Hs]. split.
    + cbn [url.PathUnescape]. by rewrite Hp, IHu.
    + by apply IndexRune_cons_absent.
Qed.

(** The escapes of a slash and of a percent sign, and a broken escape. *)
Lemma PathEscape_samples :
  url.PathEscape "tok/1 50%" = "tok%2F1%2050%25" /\
  url.PathUnescape "tok%2f1" = Ok "tok/1" /\
  url.PathUnescape "tok%2" = Fail (url.EscapeError "%2") /\
  url.PathUnescape "a%zzb" = Fail (url.EscapeError "%zz").
Proof. by vm_compute. Qed.

(** X20.  [getUserFromRequest] finds the token again in the path made of
    a slash, a first part without slash, a slash and the escaped token:
    it asks the store for exactly that token.  When the path has no
    second slash, the first part itself is taken for the token. *)
Theorem getUserFromRequest_finds_token (e : Pages.Env) (r : Pages.Request)
    (c : ascii) (part token : string) :
  Pages.IndexRune part "/" = (-1)%Z ->
  (Pages.Path r = String c (part +:+ String "/" (url.PathEscape token)) ->
   Pages.getUserFromRequest e r = user_of_token e token) /\
  (Pages.Path r = String c part -> url.PathUnescape part = Ok token ->
   Pages.getUserFromRequest e r = user_of_token e token).
Proof.
  intros Hpart. unfold Pages.getUserFromRequest, user_of_token. split.
  - intros ->. rewrite (IndexRune_app part _ "/" Hpart).
    replace (Z.to_nat (Z.of_nat (String.length part) + 2))
      with (S (S (String.length part))) by lia.
    rewrite from_second_part.
    by destruct (PathEscape_round_trip token) as [-> _].
  - intros -> Hun. rewrite Hpart.
    change (Pages.from (Z.to_nat (-1 + 2)) (String c part)) with (Pages.from 0 part).
    assert (Pages.from 0 part = part) as -> by by destruct part.
    by rewrite Hun.
Qed.

Lemma getUserFromRequest_finds_token_witness :
  Pages.getUserFromRequest env0 (at_path "/pb/tok%2F1")
  = Pages.Value "alice@example.com" /\
  Pages.getUserFromRequest env0 (at_path "/tok2") = Pages.Value "carol@example.com".
Proof.
  split.
  - refine (proj1 (getUserFromRequest_finds_token env0 (at_path "/pb/tok%2F1")
                     "/" "pb" "tok/1" _) _); reflexivity.
  - refine (proj2 (getUserFromRequest_finds_token env0 (at_path "/tok2")
                     "/" "tok2" "tok2" _) _ _); reflexivity.
Defined.

(** X21.  When [getUserFromRequest] returns a user, the user is not
    empty and the store gave it for a token that is the unescaped rest
    of the path from some place on; a path with a broken escape in that
    rest is refused whatever the store says; the empty path makes it
    panic. *)
Theorem getUserFromRequest_value (e : Pages.Env) (r : Pages.Request) :
  (forall user, Pages.getUserFromRequest e r = Pages.Value user ->
     user <> EmptyString /\
     exists n token, (1 <= n)%nat /\
       url.PathUnescape (Pages.from n (Pages.Path r)) = Ok token /\
       Pages.GetToken e token = Ok user) /\
  (forall e' msg, Pages.getUserFromRequest e r
                  = Pages.Err ("Failed to unescape token: err: " +:+ msg) ->
     Pages.getUserFromRequest e' r = Pages.getUserFromRequest e r) /\
  (Pages.Path r = EmptyString -> Pages.getUserFromRequest e r = Pages.Panics).
Proof.
  unfold Pages.getUserFromRequest.
  destruct (Pages.Path r) as [|c tail] eqn:Hpath; [by repeat split|].
  pose proof (IndexRune_bounds tail "/") as Hb.
  set (n := Z.to_nat (Pages.IndexRune tail "/" + 2)).
  destruct (url.PathUnescape (Pages.from n (String c tail))) as [token|err]
    eqn:Hun.
  - split; [|split; [|done]].
    + intros user.
      destruct (Pages.GetToken e token) as [u|] eqn:Hu; [|done].
      destruct (decide (u = EmptyString)); [done|]. intros [= <-].
      split; [done|]. exists n, token. split; [lia|]. by split.
    + intros e' msg.
      destruct (Pages.GetToken e token) as [u|] eqn:Hu.
      * by destruct (decide (u = EmptyString)).
      * intros [=].
  - split; [by intros ? [=]|]. split; [done|done].
Qed.

Lemma getUserFromRequest_value_witness :
  Pages.getUserFromRequest env0 (at_path EmptyString) = Pages.Panics.
Proof.
  refine (proj2 (proj2 (getUserFromRequest_value env0 (at_path EmptyString))) _).
  reflexivity.
Defined.

Section Secrets.

Implicit Types (e : Pages.Env) (s : Pages.Site).

Lemma secret_key_inj (u u' : string) :
  "secret:" +:+ u = "secret:" +:+ u' -> u = u'.
Proof. by intros [=]. Qed.

(** [getUserSecret] touches nothing but the strings kept at redis. *)
Lemma getUserSecret_site e s user :
  Pages.world (Pages.getUserSecret e s user).1 = Pages.world s /\
  Pages.calls (Pages.getUserSecret e s user).1 = Pages.calls s.
Proof.
  unfold Pages.getUserSecret. destruct (Pages.GET_error e); [done|].
  destruct (Pages.kv s !! _); [done|].
  destruct (Pages.Generate e user); [|done].
  by destruct (Pages.SET_error e).
Qed.

End Secrets.

(** X22.  Once [getUserSecret] has given a secret for a user it gives
    the same secret again and changes nothing more: the secret is kept
    under the key of the user, the secrets of other users and all other
    keys stay as they were, and a call that fails leaves everything as it
    was. *)
Theorem getUserSecret_stable (e : Pages.Env) (s : Pages.Site) (user : string) :
  (forall secret,
     (Pages.getUserSecret e s user).2 = Ok secret ->
     Pages.getUserSecret e (Pages.getUserSecret e s user).1 user
     = ((Pages.getUserSecret e s user).1, Ok secret) /\
     Pages.kv (Pages.getUserSecret e s user).1 !! ("secret:" +:+ user)
     = Some secret) /\
  (forall k, k <> "secret:" +:+ user ->
     Pages.kv (Pages.getUserSecret e s user).1 !! k = Pages.kv s !! k) /\
  (forall user', user' <> user ->
     Pages.kv (Pages.getUserSecret e s user).1 !! ("secret:" +:+ user')
     = Pages.kv s !! ("secret:" +:+ user')) /\
  (forall err, (Pages.getUserSecret e s user).2 = Fail err ->
     (Pages.getUserSecret e s user).1 = s).
Proof.
  assert (forall k, k <> "secret:" +:+ user ->
            Pages.kv (Pages.getUserSecret e s user).1 !! k = Pages.kv s !! k)
    as Hother.
  { intros k Hk. unfold Pages.getUserSecret.
    destruct (Pages.GET_error e); [done|].
    destruct (Pages.kv s !! _); [done|].
    destruct (Pages.Generate e user); [|done].
    destruct (Pages.SET_error e); [done|]. simpl.
    by rewrite lookup_insert_ne. }
  split; [|split; [done|split]].
  - intros secret. unfold Pages.getUserSecret.
    destruct (Pages.GET_error e) eqn:Hget; [done|].
    destruct (Pages.kv s !! _) eqn:Hkv; simpl.
    + intros [= <-]. by rewrite Hkv.
    + destruct (Pages.Generate e user); [|done].
      destruct (Pages.SET_error e); [done|]. simpl. intros [= <-].
      by rewrite lookup_insert_eq.
  - intros user' Hne. apply Hother. intros H. by apply secret_key_inj in H.
  - intros err. unfold Pages.getUserSecret.
    destruct (Pages.GET_error e); [done|].
    destruct (Pages.kv s !! _); [done|].
    destruct (Pages.Generate e user); [|done].
    by destruct (Pages.SET_error e).
Qed.

Lemma getUserSecret_first_time :
  Pages.getUserSecret env0 site0 "alice@example.com"
  = (Pages.with_kv site0
       {[ "secret:alice@example.com" := "SECRET-OF-alice@example.com" ]},
     Ok "SECRET-OF-alice@example.com").
Proof. reflexivity. Qed.

(** X23.  [serveHitMe] enters a notification exactly for a POST whose
    form parses and names an email, one notification, for that email, and
    it does so before the page is made, whether or not the templates
    work; it changes nothing else, and answers a POST without email with
    400. *)
Theorem serveHitMe_notifies (e : Pages.Env) (s : Pages.Site) (r : Pages.Request) :
  Pages.kv (Pages.serveHitMe e s r).1 = Pages.kv s /\
  Pages.calls (Pages.serveHitMe e s r).1 = Pages.calls s /\
  Main.db (Pages.world (Pages.serveHitMe e s r).1) = Main.db (Pages.world s) /\
  ((Pages.Method r = "POST" /\
    exists form dlv,
      Pages.Form r = Ok form /\ Get form "email" <> EmptyString /\
      Main.outbox (Pages.world (Pages.serveHitMe e s r).1)
      = Main.outbox (Pages.world s)
          ++ [{| rcpt := Get form "email"; delivery := dlv |}]) \/
   ((Pages.Method r <> "POST" \/ (exists err, Pages.Form r = Fail err) \/
     (exists form, Pages.Form r = Ok form /\ Get form "email" = EmptyString)) /\
    (Pages.serveHitMe e s r).1 = s /\
    (Pages.Method r = "POST" ->
     exists msg, (Pages.serveHitMe e s r).2 = [Pages.http_Error msg 400]))).
Proof.
  unfold Pages.serveHitMe.
  destruct (decide (Pages.Method r = "POST")) as [Hm|Hm].
  - destruct (Pages.Form r) as [form|err].
    + destruct (decide (Get form "email" = EmptyString)) as [He|He]; simpl.
      * repeat split; try done. right.
        split; [right; right; by exists form|]. split; [done|].
        intros _. by eexists.
      * destruct (sendAuthEmail_notifies (Pages.world s) (Get form "email"))
          as (Hdb & dlv & Hout).
        repeat split; try done. left. split; [done|]. by exists form, dlv.
    + repeat split; try done. right.
      split; [right; left; by exists err|]. split; [done|].
      intros _. by eexists.
  - repeat split; try done. right. split; [by left|]. by split.
Qed.

Lemma serveHitMe_sample :
  Main.outbox (Pages.world
    (Pages.serveHitMe env0 site0
       (post "/hitme" {[ "email" := ["dave@example.com"] ]})).1)
  = [{| rcpt := "dave@example.com";
        delivery := Sent "https://pb.terminal7.dev/pb/token-for-dave@example.com" |}].
Proof. by vm_compute. Qed.

Section AuthPage.

Implicit Types (e : Pages.Env) (s : Pages.Site) (peers : list Main.Peer).

Lemma set_verified_same (p : Main.Peer) :
  Pages.set_verified p (Main.Verified p) = p.
Proof. by destruct p. Qed.

(** One round of the loop. *)
Lemma verify_loop_cons e s form p peers :
  Pages.verify_loop e s form (p :: peers)
  = if bool_decide (Main.Verified p = ticked form p)
    then let '(s2, rest, err) := Pages.verify_loop e s form peers in
         (s2, p :: rest, err)
    else
      let s1 := Pages.call s (Pages.VerifyPeer (Main.FP p) (ticked form p)) in
      match Pages.VerifyPeer_error e (Main.FP p) (ticked form p) with
      | Some msg => (s1, Pages.set_verified p (ticked form p) :: peers, Some msg)
      | None =>
        let '(s2, rest, err) := Pages.verify_loop e s1 form peers in
        (s2, Pages.set_verified p (ticked form p) :: rest, err)
      end.
Proof.
  cbn [Pages.verify_loop]. fold (ticked form p).
  destruct (Main.Verified p) eqn:Hv, (ticked form p) eqn:Ht; simpl;
    rewrite ?Hv; simpl; try done;
    by destruct (Pages.VerifyPeer_error e (Main.FP p) _).
Qed.

Lemma changes_cons form p peers :
  changes form (p :: peers)
  = if bool_decide (Main.Verified p = ticked form p) then changes form peers
    else Pages.VerifyPeer (Main.FP p) (ticked form p) :: changes form peers.
Proof. unfold changes. simpl. by destruct (bool_decide _). Qed.

(** The loop calls [VerifyPeer] for the peers whose flag differs from the
    form, in order, until a call fails. *)
Lemma verify_loop_calls e s form peers :
  Pages.world (Pages.verify_loop e s form peers).1.1 = Pages.world s /\
  Pages.kv (Pages.verify_loop e s form peers).1.1 = Pages.kv s /\
  (exists cs, Pages.calls (Pages.verify_loop e s form peers).1.1
              = Pages.calls s ++ cs /\
              cs `prefix_of` changes form peers) /\
  ((Pages.verify_loop e s form peers).2 = None ->
   Pages.calls (Pages.verify_loop e s form peers).1.1
   = Pages.calls s ++ changes form peers /\
   (Pages.verify_loop e s form peers).1.2
   = (fun p => Pages.set_verified p (ticked form p)) <$> peers) /\
  ((forall fp v, Pages.VerifyPeer_error e fp v = None) ->
   (Pages.verify_loop e s form peers).2 = None).
Proof.
  revert s. induction peers as [|p peers IH]; intros s.
  { simpl. split; [done|]. split; [done|]. split; [|split; [|done]].
    - exists []. split; [by rewrite app_nil_r | apply prefix_nil].
    - intros _. by rewrite app_nil_r. }
  rewrite verify_loop_cons, changes_cons, fmap_cons.
  destruct (bool_decide (Main.Verified p = ticked form p)) eqn:Hsame.
  - apply bool_decide_eq_true in Hsame.
    destruct (IH s) as (IHw & IHkv & (cs & IHc & IHp) & IHnone & IHerr).
    destruct (Pages.verify_loop e s form peers) as [[s2 rest] err]. simpl in *.
    split; [done|]. split; [done|]. split; [by exists cs|]. split; [|done].
    intros ->. destruct (IHnone eq_refl) as [-> ->].
    by rewrite <- Hsame, set_verified_same.
  - set (s1 := Pages.call s (Pages.VerifyPeer (Main.FP p) (ticked form p))).
    cbn zeta.
    destruct (Pages.VerifyPeer_error e (Main.FP p) (ticked form p)) as [msg|]
      eqn:Herr.
    + simpl. split; [done|]. split; [done|]. split; [|split; [done|]].
      * eexists [_]. split; [done|]. apply prefix_cons, prefix_nil.
      * intros H. by rewrite H in Herr.
    + destruct (IH s1) as (IHw & IHkv & (cs & IHc & IHp) & IHnone & IHerr).
      destruct (Pages.verify_loop e s1 form peers) as [[s2 rest] err]. simpl in *.
      split; [done|]. split; [done|]. split; [|split; [|done]].
      * eexists (_ :: cs). rewrite IHc, <- app_assoc. split; [done|].
        by apply prefix_cons.
      * intros ->. destruct (IHnone eq_refl) as [-> ->].
        by rewrite <- app_assoc.
Qed.

End AuthPage.

Section Passcode.

Implicit Types (e : Pages.Env) (s : Pages.Site) (r : Pages.Request).

Lemma render_site e page failure data s :
  forall cs, cs = Pages.render e page failure data -> (s, cs).1 = s.
Proof. done. Qed.

Lemma delete_all_calls e s (peers : list Main.Peer) :
  Pages.calls (foldl (fun s p => Pages.del s (Pages.Key e p)) s peers)
  = Pages.calls s ++ ((fun p => Pages.DEL (Pages.Key e p)) <$> peers) /\
  Pages.world (foldl (fun s p => Pages.del s (Pages.Key e p)) s peers)
  = Pages.world s /\
  (forall k, (forall p, p ∈ peers -> Pages.Key e p <> k) ->
     Pages.kv (foldl (fun s p => Pages.del s (Pages.Key e p)) s peers) !! k
     = Pages.kv s !! k).
Proof.
  revert s. induction peers as [|p peers IH]; intros s; simpl.
  - by rewrite app_nil_r.
  - destruct (IH (Pages.del s (Pages.Key e p))) as (-> & -> & Hkv).
    simpl. rewrite <- app_assoc. split; [done|]. split; [done|].
    intros k Hk. rewrite Hkv.
    + simpl. apply lookup_delete_ne, Hk. by left.
    + intros q Hq. apply Hk. by right.
Qed.

Lemma getUserKey_site e s user :
  Pages.world (Pages.getUserKey e s user).1 = Pages.world s /\
  Pages.calls (Pages.getUserKey e s user).1 = Pages.calls s.
Proof.
  unfold Pages.getUserKey.
  pose proof (getUserSecret_site e s user) as H.
  destruct (Pages.getUserSecret e s user) as [s1 [secret|err]]; [|done].
  by destruct (Pages.NewKeyFromURL e _).
Qed.

Lemma serveQR_render_site e s user msg :
  Pages.world (Pages.serveQR_render e s user msg).1 = Pages.world s /\
  Pages.calls (Pages.serveQR_render e s user msg).1 = Pages.calls s.
Proof.
  unfold Pages.serveQR_render.
  pose proof (getUserKey_site e s user) as H.
  destruct (Pages.getUserKey e s user) as [s1 [key|err]]; [|done].
  destruct (Pages.Image e key); [|done].
  by destruct (Pages.ParseFiles e _).
Qed.

End Passcode.

Ltac same Hw Hc :=
  simpl; split;
  [ by rewrite ?Hw
  | let H := fresh in intros H; exfalso; apply H; by rewrite ?Hc ].

(** X24.  [serveAuthPage] never changes the world of identities and
    mails, and it makes a call on the store, be it to verify, to unverify
    or to delete, only for a POST of a user whose QR code is verified and
    whose form holds a passcode that is valid for the secret of that
    user. *)
Theorem serveAuthPage_needs_passcode (e : Pages.Env) (s : Pages.Site)
    (r : Pages.Request) :
  Pages.world (Pages.serveAuthPage e s r).1 = Pages.world s /\
  (Pages.calls (Pages.serveAuthPage e s r).1 <> Pages.calls s ->
   Pages.Method r = "POST" /\
   exists user form secret,
     Pages.getUserFromRequest e r = Pages.Value user /\
     Pages.IsQRVerified e user = true /\
     Pages.Form r = Ok form /\
     (Pages.getUserSecret e s user).2 = Ok secret /\
     secret <> EmptyString /\
     Pages.Validate e (Get form "otp") secret = true).
Proof.
  unfold Pages.serveAuthPage.
  destruct (Pages.getUserFromRequest e r) as [user|err|]; [|done..].
  destruct (Main.GetUsersPeers _ user) as [peers|err]; [|done].
  destruct (Pages.IsQRVerified e user) eqn:Hqr; simpl.
  2:{ by destruct (Main.createTempURL _ _ _). }
  destruct (decide (Pages.Method r = "POST")) as [Hm|Hm].
  2:{ by destruct (decide (Pages.Method r = "GET")). }
  destruct (Pages.Form r) as [form|err]; [|done].
  pose proof (getUserSecret_site e s user) as [Hw Hc].
  destruct (Pages.getUserSecret e s user) as [s1 [secret|err]] eqn:Hsec;
    simpl in *; [|same Hw Hc].
  destruct (decide (secret = EmptyString)); [same Hw Hc|].
  destruct (Pages.Validate e (Get form "otp") secret) eqn:Hval; simpl;
    [|same Hw Hc].
  destruct (bool_decide (is_Some (form !! "rmrf"))).
  - simpl. destruct (delete_all_calls e s1 peers) as (_ & -> & _).
    split; [done|]. intros _. split; [done|]. exists user, form, secret; by rewrite Hsec.
  - pose proof (verify_loop_calls e s1 form peers) as (Hlw & _).
    destruct (Pages.verify_loop e s1 form peers) as [[s2 shown] [err|]];
      simpl in *; (split; [by rewrite Hlw|]); intros _; (split; [done|]);
      exists user, form, secret; by rewrite Hsec.
Qed.

Lemma serveAuthPage_needs_passcode_witness :
  Pages.Validate env0
    (Get {[ "otp" := ["123456"]; "FP-A" := ["on"] ]} "otp")
    "SECRET-OF-alice@example.com" = true.
Proof.
  destruct (proj2 (serveAuthPage_needs_passcode env0 site0
              (post "/pb/tok%2F1" {[ "otp" := ["123456"]; "FP-A" := ["on"] ]})))
    as (_ & user & form & secret & _ & _ & Hf & Hs & _ & Hv).
  - by vm_compute.
  - injection Hf as <-. vm_compute in Hs. injection Hs as <-. exact Hv.
Defined.

(** X25.  A POST to [serveAuthPage] with a valid passcode and without
    [rmrf] brings the verified flags in line with the form: [VerifyPeer]
    is called once for each peer of the user whose flag differs from
    whether its fingerprint is a key of the form, with the value the form
    asks for, in the order of the list and for no other peer; the page
    then says that the PeerBook was updated. *)
Theorem serveAuthPage_syncs_flags (e : Pages.Env) (s s1 : Pages.Site)
    (r : Pages.Request) (user secret : string) (form : Values)
    (peers : list Main.Peer) :
  Pages.getUserFromRequest e r = Pages.Value user ->
  Main.GetUsersPeers (Main.db (Pages.world s)) user = Ok peers ->
  Pages.IsQRVerified e user = true ->
  Pages.Method r = "POST" -> Pages.Form r = Ok form ->
  Pages.getUserSecret e s user = (s1, Ok secret) -> secret <> EmptyString ->
  Pages.Validate e (Get form "otp") secret = true ->
  form !! "rmrf" = None ->
  (forall fp v, Pages.VerifyPeer_error e fp v = None) ->
  Pages.calls (Pages.serveAuthPage e s r).1 = Pages.calls s ++ changes form peers /\
  exists shown,
    (Pages.serveAuthPage e s r).2
    = Pages.render e "pb.tmpl" "Failed to execute the main template: "
        {| Pages.Message := "Your PeerBook was updated"; Pages.User := user;
           Pages.Peers := shown;
           Pages.Image_ := EmptyString; Pages.Token := EmptyString |}.
Proof.
  intros Huser Hpeers Hqr Hm Hform Hsecret Hne Hval Hrm Hok.
  unfold Pages.serveAuthPage. rewrite Huser, Hpeers, Hqr. simpl.
  destruct (decide (Pages.Method r = "POST")) as [_|]; [|done].
  rewrite Hform, Hsecret.
  destruct (decide (secret = EmptyString)) as [|_]; [done|].
  rewrite Hval, Hrm. simpl.
  pose proof (getUserSecret_site e s user) as [_ Hc]. rewrite Hsecret in Hc.
  simpl in Hc.
  destruct (verify_loop_calls e s1 form peers) as (_ & _ & _ & Hnone & Herr).
  specialize (Herr Hok).
  destruct (Pages.verify_loop e s1 form peers) as [[s2 shown] err].
  simpl in *. subst err. simpl. destruct (Hnone eq_refl) as [Hcs ->].
  rewrite Hcs, Hc. split; [done | by eexists].
Qed.

Lemma serveAuthPage_syncs_flags_witness :
  Pages.calls (Pages.serveAuthPage env0 site0
                 (post "/pb/tok%2F1" {[ "otp" := ["123456"]; "FP-A" := ["on"] ]})).1
  = [Pages.VerifyPeer "FP-A" true].
Proof.
  refine (proj1 (serveAuthPage_syncs_flags env0 site0
            (Pages.with_kv site0
               {[ "secret:alice@example.com" := "SECRET-OF-alice@example.com" ]})
            (post "/pb/tok%2F1" {[ "otp" := ["123456"]; "FP-A" := ["on"] ]})
            "alice@example.com" "SECRET-OF-alice@example.com"
            {[ "otp" := ["123456"]; "FP-A" := ["on"] ]}
            [Main.NewPeer "FP-A" "laptop" "alice@example.com" "terminal7"]
            _ _ _ _ _ _ _ _ _ _)); try reflexivity; try by vm_compute.
Defined.

(** X26.  A POST to [serveAuthPage] with a valid passcode and [rmrf]
    deletes the key of each peer of the user and then the key of the
    user, and nothing else; it verifies no peer and answers with the page
    that says so.  The secret of the user is none of these keys unless a
    peer has it for its key, so it stays where it is. *)
Theorem serveAuthPage_removes_user (e : Pages.Env) (s s1 : Pages.Site)
    (r : Pages.Request) (user secret : string) (form : Values)
    (peers : list Main.Peer) :
  Pages.getUserFromRequest e r = Pages.Value user ->
  Main.GetUsersPeers (Main.db (Pages.world s)) user = Ok peers ->
  Pages.IsQRVerified e user = true ->
  Pages.Method r = "POST" -> Pages.Form r = Ok form ->
  Pages.getUserSecret e s user = (s1, Ok secret) -> secret <> EmptyString ->
  Pages.Validate e (Get form "otp") secret = true ->
  is_Some (form !! "rmrf") ->
  Pages.calls (Pages.serveAuthPage e s r).1
  = Pages.calls s ++ ((fun p => Pages.DEL (Pages.Key e p)) <$> peers)
      ++ [Pages.DEL ("user:" +:+ user)] /\
  ((forall p, p ∈ peers -> Pages.Key e p <> "secret:" +:+ user) ->
   Pages.kv (Pages.serveAuthPage e s r).1 !! ("secret:" +:+ user) = Some secret) /\
  (Pages.serveAuthPage e s r).2 = [Pages.Write Pages.HTMLPostrmrf].
Proof.
  intros Huser Hpeers Hqr Hm Hform Hsecret Hne Hval Hrm.
  unfold Pages.serveAuthPage. rewrite Huser, Hpeers, Hqr. simpl.
  destruct (decide (Pages.Method r = "POST")) as [_|]; [|done].
  rewrite Hform, Hsecret.
  destruct (decide (secret = EmptyString)) as [|_]; [done|].
  rewrite Hval, (bool_decide_eq_true_2 _ Hrm). simpl.
  pose proof (getUserSecret_site e s user) as [_ Hc]. rewrite Hsecret in Hc.
  simpl in Hc.
  destruct (delete_all_calls e s1 peers) as (-> & _ & Hkv).
  rewrite Hc, <- app_assoc. split; [done|]. split; [|done].
  intros Hkeys. rewrite lookup_delete_ne by (by intros [=]).
  rewrite (Hkv _ Hkeys).
  destruct (getUserSecret_stable e s user) as [Hst _].
  rewrite Hsecret in Hst. by destruct (Hst secret eq_refl) as [_ ?].
Qed.

Lemma serveAuthPage_removes_user_witness :
  Pages.calls (Pages.serveAuthPage env0 site0
                 (post "/pb/tok%2F1" {[ "otp" := ["123456"]; "rmrf" := ["on"] ]})).1
  = [Pages.DEL "peer:FP-A"; Pages.DEL "user:alice@example.com"].
Proof.
  refine (proj1 (serveAuthPage_removes_user env0 site0
            (Pages.with_kv site0
               {[ "secret:alice@example.com" := "SECRET-OF-alice@example.com" ]})
            (post "/pb/tok%2F1" {[ "otp" := ["123456"]; "rmrf" := ["on"] ]})
            "alice@example.com" "SECRET-OF-alice@example.com"
            {[ "otp" := ["123456"]; "rmrf" := ["on"] ]}
            [Main.NewPeer "FP-A" "laptop" "alice@example.com" "terminal7"]
            _ _ _ _ _ _ _ _ _)); try reflexivity; try (by vm_compute).
  by eexists.
Defined.

(** X27.  [serveQR] marks the QR code of a user verified at most once in
    a request, and only on a POST whose passcode is valid for the secret
    of that user and when the code was not verified before; once it is,
    every request is answered with 501 and changes nothing.  The world of
    identities and mails is never touched. *)
Theorem serveQR_needs_passcode (e : Pages.Env) (s : Pages.Site)
    (r : Pages.Request) :
  Pages.world (Pages.serveQR e s r).1 = Pages.world s /\
  (Pages.calls (Pages.serveQR e s r).1 = Pages.calls s \/
   exists user form secret,
     Pages.calls (Pages.serveQR e s r).1
     = Pages.calls s ++ [Pages.SetQRVerified user] /\
     Pages.Method r = "POST" /\
     Pages.getUserFromRequest e r = Pages.Value user /\
     Pages.IsQRVerified e user = false /\
     Pages.Form r = Ok form /\
     (Pages.getUserSecret e s user).2 = Ok secret /\
     Pages.Validate e (Get form "otp") secret = true) /\
  (forall user, Pages.getUserFromRequest e r = Pages.Value user ->
     Pages.IsQRVerified e user = true ->
     (Pages.serveQR e s r).1 = s /\
     exists msg, (Pages.serveQR e s r).2 = [Pages.http_Error msg 501]).
Proof.
  unfold Pages.serveQR.
  destruct (Pages.getUserFromRequest e r) as [user|err|].
  2:{ split; [done|]. split; [by left|]. by intros ? [=]. }
  2:{ split; [done|]. split; [by left|]. by intros ? [=]. }
  destruct (Pages.IsQRVerified e user) eqn:Hqr.
  { split; [done|]. split; [by left|]. intros ? [= <-] _. split; [done|].
    by eexists. }
  assert (forall s0 msg, Pages.world s0 = Pages.world s ->
            Pages.calls s0 = Pages.calls s ->
            Pages.world (Pages.serveQR_render e s0 user msg).1 = Pages.world s /\
            Pages.calls (Pages.serveQR_render e s0 user msg).1 = Pages.calls s)
    as Hrender.
  { intros s0 msg Hw Hc.
    destruct (serveQR_render_site e s0 user msg) as [-> ->]. done. }
  split; [|split; [|intros ? [= <-] H; by rewrite Hqr in H]].
  - destruct (decide (Pages.Method r = "POST")).
    2:{ destruct (decide (Pages.Method r ≠ "GET")); [done|]. by apply Hrender. }
    destruct (Pages.Form r) as [form|err]; [|by apply Hrender].
    pose proof (getUserSecret_site e s user) as [Hw Hc].
    destruct (Pages.getUserSecret e s user) as [s1 [secret|err]]; simpl in *;
      [|by apply Hrender].
    destruct (Pages.Validate e _ secret); simpl; [|by apply Hrender].
    destruct (Main.createTempURL _ _ _); [|by apply Hrender].
    destruct (Pages.SetQRVerified_error e user); [|done].
    by destruct (serveQR_render_site e (Pages.call s1 (Pages.SetQRVerified user))
                   user ("failed to save QRVerified: " +:+ s0)) as [-> _].
  - destruct (decide (Pages.Method r = "POST")) as [Hm|Hm].
    2:{ left. destruct (decide (Pages.Method r ≠ "GET")); [done|].
        by apply Hrender. }
    destruct (Pages.Form r) as [form|err]; [|left; by apply Hrender].
    pose proof (getUserSecret_site e s user) as [Hw Hc].
    destruct (Pages.getUserSecret e s user) as [s1 [secret|err]] eqn:Hsec;
      simpl in *; [|left; by apply Hrender].
    destruct (Pages.Validate e _ secret) eqn:Hval; simpl;
      [|left; by apply Hrender].
    destruct (Main.createTempURL _ _ _); [|left; by apply Hrender].
    right. exists user, form, secret. rewrite Hsec.
    destruct (Pages.SetQRVerified_error e user).
    + destruct (serveQR_render_site e (Pages.call s1 (Pages.SetQRVerified user))
                  user ("failed to save QRVerified: " +:+ s0)) as [_ ->].
      simpl. by rewrite Hc.
    + simpl. by rewrite Hc.
Qed.

Lemma serveQR_sample :
  Pages.serveQR env0 site0 (post "/qr/tok2" {[ "otp" := ["123456"] ]})
  = (Pages.call
       (Pages.with_kv site0
          {[ "secret:carol@example.com" := "SECRET-OF-carol@example.com" ]})
       (Pages.SetQRVerified "carol@example.com"),
     [Pages.http_Redirect
        ("https://pb.terminal7.dev/pb/token-for-carol@example.com"
           +:+ "?m=One%20Time%20Password%20verified") 303]).
Proof. by vm_compute. Qed.
